(** * ho: Bayesian hyperparameter optimisation (package [ho])

    A shallow embedding of the Go package: the surrogate model of
    [utils.go] ([gaussianProcess], [RBFKernel], [Predict], [Update]) and
    its helpers, the acquisition functions of [acquisitionfunction.go] and
    the driver [OptimizeHyperparameters] of [ho.go], with the progress
    updates it sends.

    The code computes on [float64].  The embedding is written once, over an
    interface [Float64Ops] that lists the operations the package uses, and is
    read in two arithmetics:
    - [Exact]: the real numbers, every operation exact (no rounding, no
      overflow, no NaN);
    - [Binary64]: IEEE 754 binary64, the kernel's primitive floats, which
      evaluates the code on concrete inputs bit for bit.

    Go panics are results of type [outcome]; the random generator and the
    objective (with the clock that times it) are explicit inputs. *)

From Stdlib Require Import String.
From Stdlib Require Import ZArith List Bool Lia Sorted.
From Stdlib Require Import Reals Lra.
From Stdlib Require Import Floats.
Import ListNotations.

Set Implicit Arguments.

(* ================================================================== *)
(** ** Panics *)

(** How a call can abort.  [ExplicitPanic] is a [panic("...")] statement
    of the program (or of the library it calls) with its message; the two
    others are faults the Go runtime raises by itself. *)
Inductive panic : Type :=
| ExplicitPanic (msg : string)
| NilPointerDereference
| IndexOutOfRange.

Inductive outcome (A : Type) : Type :=
| Returns (a : A)
| Panics (p : panic).

Arguments Returns {A} a.
Arguments Panics {A} p.

Definition bind {A B : Type} (m : outcome A) (k : A -> outcome B) : outcome B :=
  match m with
  | Returns a => k a
  | Panics p => Panics p
  end.

Notation "x <- m ;; k" := (bind m (fun x => k))
  (at level 61, m at next level, right associativity).
Notation "' pat <- m ;; k" := (bind m (fun x => match x with pat => k end))
  (at level 61, pat pattern, m at next level, right associativity).

(** [for i := 0; i < n; i++ { s = body(s) }], the index unused by [body]. *)
Fixpoint repeatM {S : Type} (n : nat) (body : S -> outcome S) (s : S) : outcome S :=
  match n with
  | O => Returns s
  | Datatypes.S n' => s' <- body s ;; repeatM n' body s'
  end.

(** An [int] loop bound: a negative bound runs the body zero times. *)
Definition loopCount (n : Z) : nat := Z.to_nat n.

(* ================================================================== *)
(** ** The arithmetic of [float64] *)

Declare Scope f64_scope.
Delimit Scope f64_scope with f64.

(** The operations of [float64] the package uses: the four operations,
    negation, [<], the conversion [float64(v)] of an integer, [math.Sqrt],
    [math.Exp], the constant [math.MaxFloat64], and the rounding of the
    conversion [float32(x)] (the result again read as a [float64]). *)
Class Float64Ops (F : Type) : Type := {
  f_add : F -> F -> F;
  f_sub : F -> F -> F;
  f_mul : F -> F -> F;
  f_div : F -> F -> F;
  f_neg : F -> F;
  f_lt : F -> F -> bool;
  f_of_int : Z -> F;
  Sqrt : F -> F;
  Exp : F -> F;
  MaxFloat64 : F;
  f_to_float32 : F -> F
}.

Infix "+" := f_add : f64_scope.
Infix "-" := f_sub : f64_scope.
Infix "*" := f_mul : f64_scope.
Infix "/" := f_div : f64_scope.
Notation "- x" := (f_neg x) : f64_scope.
Infix "<?" := f_lt : f64_scope.
Notation "0" := (f_of_int 0%Z) : f64_scope.
Notation "1" := (f_of_int 1%Z) : f64_scope.
Notation "2" := (f_of_int 2%Z) : f64_scope.

(* ================================================================== *)
(** ** The surrogate model ([utils.go]) *)

Section GaussianProcess.

Context {F : Type} {ops : Float64Ops F}.
Local Open Scope f64_scope.

(** [type gaussianProcess struct { mu; X [][]float64; Y []float64; sigma }].
    The lock [mu] guards the three other fields and has no state of its own
    in a sequential run. *)
Record gaussianProcess : Type := {
  X : list (list F);
  Y : list F;
  sigma : F
}.

Definition newGaussianProcess : gaussianProcess :=
  {| X := []; Y := []; sigma := 1 |}.

Definition SetSigma (gp : gaussianProcess) (s : F) : gaussianProcess :=
  {| X := X gp; Y := Y gp; sigma := s |}.

Definition GetSigma (gp : gaussianProcess) : F := sigma gp.

(** The loop [for i := range x1 { diff := x1[i] - x2[i]; sum += diff * diff }],
    entered only when both vectors have one length. *)
Definition squaredDistance (x1 x2 : list F) : F :=
  fold_left (fun sum ab => let diff := fst ab - snd ab in sum + diff * diff)
            (combine x1 x2) 0.

Definition RBFKernel (gp : gaussianProcess) (x1 x2 : list F) : outcome F :=
  if negb (Nat.eqb (length x1) (length x2)) then
    Panics (ExplicitPanic "input vectors must have the same length")
  else
    let sigma := sigma gp in
    let sum := squaredDistance x1 x2 in
    Returns (Exp (- sum / (2 * sigma * sigma))).

(** [for i := range gp.X { k[i] = gp.RBFKernel(x, gp.X[i]) }] *)
Fixpoint kernelValues (gp : gaussianProcess) (x : list F) (xs : list (list F))
  : outcome (list F) :=
  match xs with
  | [] => Returns []
  | xi :: xs' =>
      ki <- RBFKernel gp x xi ;;
      k <- kernelValues gp x xs' ;;
      Returns (ki :: k)
  end.

(** [for i := range gp.X { sum += k[i] * gp.Y[i] }]: [k] has the length of
    [gp.X], so the loop runs over [k]; [gp.Y[i]] faults when [gp.Y] is
    shorter. *)
Fixpoint weightedSum (k : list F) (ys : list F) (i : nat) (sum : F) : outcome F :=
  match k with
  | [] => Returns sum
  | ki :: k' =>
      match nth_error ys i with
      | None => Panics IndexOutOfRange
      | Some yi => weightedSum k' ys (S i) (sum + ki * yi)
      end
  end.

(** [for i := range gp.X { for j := range gp.X {
       variance -= k[i] * k[j] / float64(len(gp.X)) } }] *)
Definition varianceLoop (k : list F) (n : F) (variance : F) : F :=
  fold_left (fun v ki => fold_left (fun v' kj => v' - ki * kj / n) k v) k variance.

Definition Predict (gp : gaussianProcess) (x : list F) : outcome (F * F) :=
  if Nat.eqb (length (X gp)) 0 then Returns (0, 1)
  else
    k <- kernelValues gp x (X gp) ;;
    sum <- weightedSum k (Y gp) 0 0 ;;
    let n := f_of_int (Z.of_nat (length (X gp))) in
    let mean := sum / n in
    let variance := varianceLoop k n 1 in
    Returns (mean, variance).

(** [newX := make([]float64, len(x)); copy(newX, x)] is [x] itself, as a
    value. *)
Definition Update (gp : gaussianProcess) (x : list F) (y : F) : gaussianProcess :=
  {| X := X gp ++ [x]; Y := Y gp ++ [y]; sigma := sigma gp |}.

End GaussianProcess.

Arguments gaussianProcess F : clear implicits.

(* ================================================================== *)
(** ** Random sources ([math/rand]) *)

Section Rand.

Context {F : Type}.

(** What a generator answers: the result of its [i]-th call, for each of the
    three methods the package calls.  [Int63n] is also given its argument. *)
Record Source : Type := {
  src_Int63n : nat -> Z -> Z;
  src_Float64 : nat -> F;
  src_NormFloat64 : nat -> F
}.

(** A [*rand.Rand] that is not nil: a source and the number of values drawn
    from it so far.  A [*rand.Rand] is an [option Rand], [None] for nil. *)
Record Rand : Type := {
  source : Source;
  drawn : nat
}.

Definition advance (r : Rand) : Rand :=
  {| source := source r; drawn := S (drawn r) |}.

(** [r.Int63n(n)] panics when [n <= 0]. *)
Definition Int63n (r : Rand) (n : Z) : outcome (Z * Rand) :=
  if (n <=? 0)%Z then Panics (ExplicitPanic "invalid argument to Int63n")
  else Returns (src_Int63n (source r) (drawn r) n, advance r).

Definition Float64 (r : Rand) : F * Rand :=
  (src_Float64 (source r) (drawn r), advance r).

(** [r.NormFloat64()] on a [*rand.Rand]: the method reads the generator's
    fields, which faults on the nil pointer. *)
Definition NormFloat64 (r : option Rand) : outcome (F * option Rand) :=
  match r with
  | None => Panics NilPointerDereference
  | Some r => Returns (src_NormFloat64 (source r) (drawn r), Some (advance r))
  end.

End Rand.

Arguments Source F : clear implicits.
Arguments Rand F : clear implicits.

(* ================================================================== *)
(** ** Numeric types and parameter ranges ([types.go]) *)

(** The predeclared types of [constraints.Integer | constraints.Float]. *)
Inductive basicKind : Type :=
| Tint | Tint8 | Tint16 | Tint32 | Tint64
| Tuint | Tuint8 | Tuint16 | Tuint32 | Tuint64 | Tuintptr
| Tfloat32 | Tfloat64.

(** A type argument [T]: a predeclared type, or a defined type
    ([type Size int]) whose underlying type is one; the constraint's [~]
    accepts both. *)
Inductive numType : Type :=
| Predeclared (b : basicKind)
| Defined (b : basicKind).

Definition underlying (t : numType) : basicKind :=
  match t with Predeclared b | Defined b => b end.

Definition isFloatKind (b : basicKind) : bool :=
  match b with Tfloat32 | Tfloat64 => true | _ => false end.

(** Two's complement wrap-around to [bits] bits. *)
Definition wrapSigned (bits z : Z) : Z :=
  ((z + 2 ^ (bits - 1)) mod 2 ^ bits - 2 ^ (bits - 1))%Z.

(** The conversion [int64(v)]. *)
Definition int64 (z : Z) : Z := wrapSigned 64 z.

Section Types.

Context {F : Type} {ops : Float64Ops F}.
Local Open Scope f64_scope.

(** The values of [T]: integers for the integer types, floats for the
    others. *)
Definition carrier (t : numType) : Type :=
  if isFloatKind (underlying t) then F else Z.

Definition zeroOf (b : basicKind) : (if isFloatKind b then F else Z) :=
  match b with
  | Tfloat32 | Tfloat64 => 0
  | _ => 0%Z
  end.

(** The zero value of [T], which [make([]T, n)] fills a slice with. *)
Definition zeroValue (t : numType) : carrier t :=
  match t with Predeclared b | Defined b => zeroOf b end.

Definition floatOf (b : basicKind) : (if isFloatKind b then F else Z) -> F :=
  match b with
  | Tfloat32 | Tfloat64 => fun v => v
  | _ => fun v => f_of_int v
  end.

(** The conversion [float64(v)] of a [v] of type [T]. *)
Definition toFloat64 (t : numType) : carrier t -> F :=
  match t with Predeclared b | Defined b => floatOf b end.

(** [type ParameterRange[T] struct { Min T; Max T }] *)
Record ParameterRange (t : numType) : Type := {
  Min : carrier t;
  Max : carrier t
}.

(** [type AcquisitionParams struct { Beta, Xi, BestSoFar float64;
    RandomState *rand.Rand }] *)
Record AcquisitionParams : Type := {
  Beta : F;
  Xi : F;
  BestSoFar : F;
  RandomState : option (Rand F)
}.

(** [type AcquisitionFunc func(mean, variance float64, params
    AcquisitionParams) float64].  The call may panic, and it may draw from
    the generator [params.RandomState] points to: the result carries the
    generator as the call leaves it. *)
Definition AcquisitionFunc : Type :=
  F -> F -> AcquisitionParams -> outcome (F * option (Rand F)).

(** [type OptimizationConfig struct].  [ProgressChan] is left out: on a
    channel that is nil or stays open, the driver only sends, without
    blocking, values it has already computed. *)
Record OptimizationConfig : Type := {
  Iterations : Z;
  InitialSamples : Z;
  NumCandidates : Z;
  AcquisitionFunc_ : AcquisitionFunc;
  AcqParams : AcquisitionParams
}.

(** One call of the objective as the driver sees it: whether
    [benchmarkFunc(params...)] returned a non-nil error, and
    [time.Since(startTime).Nanoseconds()] around the call. *)
Record Invocation : Type := {
  failed : bool;
  nanoseconds : Z
}.

(** [type BenchmarkFunc[T] func(params ...T) error], with the clock: the
    first argument is the number of calls made before this one.  An
    objective that panics is outside the model. *)
Definition BenchmarkFunc (t : numType) : Type :=
  nat -> list (carrier t) -> Invocation.

End Types.

Arguments carrier F t : clear implicits.
Arguments ParameterRange F t : clear implicits.
Arguments BenchmarkFunc F t : clear implicits.
Arguments AcquisitionParams F : clear implicits.
Arguments AcquisitionFunc F : clear implicits.
Arguments OptimizationConfig F : clear implicits.

(* ================================================================== *)
(** ** Acquisition functions ([acquisitionfunction.go]) *)

Section Acquisition.

Context {F : Type} {ops : Float64Ops F}.
Local Open Scope f64_scope.

Definition UCB : AcquisitionFunc F :=
  fun mean variance params =>
    Returns (mean - Beta params * Sqrt variance, RandomState params).

Definition ThompsonSampling : AcquisitionFunc F :=
  fun mean variance params =>
    '(z, rs) <- NormFloat64 (RandomState params) ;;
    Returns (mean + Sqrt variance * z, rs).

End Acquisition.

Section Defaults.

Context {F : Type} {ops : Float64Ops F}.
Local Open Scope f64_scope.

(** [DefaultConfig()].  [randomState] is the generator
    [rand.New(rand.NewSource(time.Now().UnixNano()))] it creates; the
    constant 0.01 is the float64 nearest to 1/100, which is what the
    division gives. *)
Definition DefaultConfig (randomState : Rand F) : OptimizationConfig F :=
  {| Iterations := 50;
     InitialSamples := 10;
     NumCandidates := 50;
     AcquisitionFunc_ := UCB;
     AcqParams :=
       {| BestSoFar := MaxFloat64;
          Beta := 2;
          RandomState := Some randomState;
          Xi := 1 / f_of_int 100 |} |}.

(** [config.Iterations = n; config.InitialSamples = m;
    config.NumCandidates = c], as a caller sets them. *)
Definition withCounts (config : OptimizationConfig F)
  (iterations initialSamples numCandidates : Z) : OptimizationConfig F :=
  {| Iterations := iterations;
     InitialSamples := initialSamples;
     NumCandidates := numCandidates;
     AcquisitionFunc_ := AcquisitionFunc_ config;
     AcqParams := AcqParams config |}.

End Defaults.

(** [ProbabilityOfImprovement] and [ExpectedImprovement] go through
    [math.Erf] and are defined further down, over [MathLib]; to the driver
    they are values of type [AcquisitionFunc] like the two above. *)

(* ================================================================== *)
(** ** The driver ([ho.go]) *)

(** [l[i] = v], for [i] within [l]. *)
Fixpoint setIndex {A : Type} (l : list A) (i : nat) (v : A) : list A :=
  match l, i with
  | [], _ => []
  | _ :: l', O => v :: l'
  | a :: l', S i' => a :: setIndex l' i' v
  end.

(** The builtin [copy(dst, src)]: the first [min(len(dst), len(src))]
    elements of [dst] are overwritten. *)
Definition copy {A : Type} (dst src : list A) : list A :=
  firstn (length dst) src ++ skipn (length src) dst.

Section Driver.

Context {F : Type} {ops : Float64Ops F}.
Local Open Scope f64_scope.

(** The [case int, int32, int64] branch, for a type of [bits] bits:
    [min := int64(hyper.Min); max := int64(hyper.Max);
     params[i] = T(min + rng.Int63n(max-min+1))]. *)
Definition randomInteger (bits : Z) (Min Max : Z) (rng : Rand F)
  : outcome (Z * Rand F) :=
  let min := int64 Min in
  let max := int64 Max in
  '(r, rng') <- Int63n rng (int64 (max - min + 1)) ;;
  Returns (wrapSigned bits (int64 (min + r)), rng').

(** The [case float32, float64] branch, [toT] the conversion [T(x)]:
    [min := float64(hyper.Min); max := float64(hyper.Max);
     params[i] = T(min + rng.Float64()*(max-min))]. *)
Definition randomFloat (toT : F -> F) (Min Max : F) (rng : Rand F)
  : F * Rand F :=
  let min := Min in
  let max := Max in
  let '(u, rng') := Float64 rng in
  (toT (min + u * (max - min)), rng').

(** The body of [for i, hyper := range hypers]: the type switch
    [switch any(hyper.Min).(type)].  Its cases name five predeclared types;
    for every other [T] no case matches and [params[i]] is left as it is.
    [int] is taken as 64 bits wide. *)
Definition assignRandom (t : numType)
  : ParameterRange F t -> nat -> list (carrier F t) -> Rand F ->
    outcome (list (carrier F t) * Rand F) :=
  match t with
  | Predeclared Tint => fun hyper i params rng =>
      '(v, rng') <- randomInteger 64 (Min hyper) (Max hyper) rng ;;
      Returns (setIndex params i v, rng')
  | Predeclared Tint32 => fun hyper i params rng =>
      '(v, rng') <- randomInteger 32 (Min hyper) (Max hyper) rng ;;
      Returns (setIndex params i v, rng')
  | Predeclared Tint64 => fun hyper i params rng =>
      '(v, rng') <- randomInteger 64 (Min hyper) (Max hyper) rng ;;
      Returns (setIndex params i v, rng')
  | Predeclared Tfloat32 => fun hyper i params rng =>
      let '(v, rng') := randomFloat f_to_float32 (Min hyper) (Max hyper) rng in
      Returns (setIndex params i v, rng')
  | Predeclared Tfloat64 => fun hyper i params rng =>
      let '(v, rng') := randomFloat (fun x => x) (Min hyper) (Max hyper) rng in
      Returns (setIndex params i v, rng')
  | _ => fun _ _ params rng => Returns (params, rng)
  end.

Fixpoint rangeLoop (t : numType) (hypers : list (ParameterRange F t)) (i : nat)
  (params : list (carrier F t)) (rng : Rand F)
  : outcome (list (carrier F t) * Rand F) :=
  match hypers with
  | [] => Returns (params, rng)
  | hyper :: rest =>
      '(params', rng') <- assignRandom hyper i params rng ;;
      rangeLoop rest (S i) params' rng'
  end.

(** [safeRandomParams]: [params := make([]T, len(hypers))], then the loop.
    The mutex around it has no effect on a sequential run. *)
Definition safeRandomParams (t : numType) (hypers : list (ParameterRange F t))
  (rng : Rand F) : outcome (list (carrier F t) * Rand F) :=
  let params := repeat (zeroValue t) (length hypers) in
  rangeLoop hypers 0 params rng.

Definition paramsToFloat64s (t : numType) (params : list (carrier F t)) : list F :=
  map (@toFloat64 F ops t) params.

(** The variables of [OptimizeHyperparameters] that its closures and loops
    update: the model, the best point and its cost, the generator, the local
    copy of [config.AcqParams] (with the generator its [RandomState] points
    to), and, as a log, the arguments of the calls of the objective made so
    far. *)
Record driver (t : numType) : Type := {
  gp : gaussianProcess F;
  bestParams : list (carrier F t);
  bestTime : F;
  rng : Rand F;
  acqParams : AcquisitionParams F;
  calls : list (list (carrier F t))
}.

Section Run.

Variable t : numType.
Variable config : OptimizationConfig F.
Variable benchmarkFunc : BenchmarkFunc F t.
Variable hypers : list (ParameterRange F t).

(** [updateBest]: [if executionTime < bestTime { bestTime = executionTime;
    copy(bestParams, params) }]. *)
Definition updateBest (st : driver t) (params : list (carrier F t))
  (executionTime : F) : driver t :=
  if executionTime <? bestTime st then
    {| gp := gp st;
       bestParams := copy (bestParams st) params;
       bestTime := executionTime;
       rng := rng st;
       acqParams := acqParams st;
       calls := calls st |}
  else st.

(** The timed call, in both phases:
    [err := benchmarkFunc(params...);
     executionTime := float64(time.Since(startTime).Nanoseconds());
     if err != nil { executionTime = math.MaxFloat64/2 + executionTime }]. *)
Definition measure (st : driver t) (params : list (carrier F t)) : F :=
  let call := benchmarkFunc (length (calls st)) params in
  let executionTime := f_of_int (nanoseconds call) in
  if failed call then MaxFloat64 / 2 + executionTime else executionTime.

(** After the timed call, in both phases: [gp.Update(floats, executionTime);
    updateBest(params, executionTime)]; [sendProgress] then reads the state
    and changes nothing of it. *)
Definition record (st : driver t) (rng' : Rand F) (params : list (carrier F t))
  (executionTime : F) : driver t :=
  let floatParams := paramsToFloat64s t params in
  updateBest
    {| gp := Update (gp st) floatParams executionTime;
       bestParams := bestParams st;
       bestTime := bestTime st;
       rng := rng';
       acqParams := acqParams st;
       calls := calls st ++ [params] |}
    params executionTime.

(** The body of the loop of phase 1. *)
Definition initialSample (st : driver t) : outcome (driver t) :=
  '(params, rng') <- safeRandomParams hypers (rng st) ;;
  let executionTime := measure st params in
  Returns (record st rng' params executionTime).

(** The variables of the loop over the candidates. *)
Record search : Type := {
  nextParams : list (carrier F t);
  bestAcquisition : F;
  s_rng : Rand F;
  s_acqParams : AcquisitionParams F
}.

(** The first statements of the body of
    [for j := 0; j < config.NumCandidates; j++]: a candidate, the model's
    prediction at it, and its score; with the two generators as the
    statements leave them. *)
Definition scoreCandidate (model : gaussianProcess F) (rng : Rand F)
  (params : AcquisitionParams F)
  : outcome (list (carrier F t) * F * Rand F * option (Rand F)) :=
  '(candidateParams, rng') <- safeRandomParams hypers rng ;;
  let floatCandidateParams := paramsToFloat64s t candidateParams in
  '(mean, variance) <- Predict model floatCandidateParams ;;
  '(acquisition, state) <- AcquisitionFunc_ config mean variance params ;;
  Returns (candidateParams, acquisition, rng', state).

(** [config.AcqParams] once the acquisition function has drawn from the
    generator its [RandomState] points to. *)
Definition withState (params : AcquisitionParams F) (state : option (Rand F))
  : AcquisitionParams F :=
  {| Beta := Beta params;
     Xi := Xi params;
     BestSoFar := BestSoFar params;
     RandomState := state |}.

(** The body of the loop, whole: the statements above, then
    [if acquisition < bestAcquisition { bestAcquisition = acquisition;
    nextParams = candidateParams }]. *)
Definition candidate (model : gaussianProcess F) (s : search) : outcome search :=
  '(candidateParams, acquisition, rng', state) <-
     scoreCandidate model (s_rng s) (s_acqParams s) ;;
  if acquisition <? bestAcquisition s then
    Returns {| nextParams := candidateParams;
               bestAcquisition := acquisition;
               s_rng := rng';
               s_acqParams := withState (s_acqParams s) state |}
  else
    Returns {| nextParams := nextParams s;
               bestAcquisition := bestAcquisition s;
               s_rng := rng';
               s_acqParams := withState (s_acqParams s) state |}.

(** The candidates of one iteration: [var nextParams []T] (nil, the empty
    slice), [bestAcquisition := math.MaxFloat64],
    [config.AcqParams.BestSoFar = bestTime], then the loop. *)
Definition selectCandidate (st : driver t) : outcome search :=
  repeatM (loopCount (NumCandidates config)) (candidate (gp st))
    {| nextParams := [];
       bestAcquisition := MaxFloat64;
       s_rng := rng st;
       s_acqParams :=
         {| Beta := Beta (acqParams st);
            Xi := Xi (acqParams st);
            BestSoFar := bestTime st;
            RandomState := RandomState (acqParams st) |} |}.

(** The driver's variables after the loop over the candidates: the loop
    has drawn from the generator and may have moved the generator of
    [config.AcqParams.RandomState]; [BestSoFar] is the refreshed one. *)
Definition afterSearch (st : driver t) (s : search) : driver t :=
  {| gp := gp st;
     bestParams := bestParams st;
     bestTime := bestTime st;
     rng := s_rng s;
     acqParams := s_acqParams s;
     calls := calls st |}.

(** The body of the loop of phase 2. *)
Definition iteration (st : driver t) : outcome (driver t) :=
  s <- selectCandidate st ;;
  let st' := afterSearch st s in
  let executionTime := measure st' (nextParams s) in
  Returns (record st' (s_rng s) (nextParams s) executionTime).

(** The state before phase 1; [seed] is the generator
    [rand.New(rand.NewSource(time.Now().UnixNano()))]. *)
Definition start (seed : Rand F) : driver t :=
  {| gp := newGaussianProcess;
     bestParams := repeat (zeroValue t) (length hypers);
     bestTime := MaxFloat64;
     rng := seed;
     acqParams := AcqParams config;
     calls := [] |}.

(** The two phases, and the state they end in. *)
Definition run (seed : Rand F) : outcome (driver t) :=
  st <- repeatM (loopCount (InitialSamples config)) initialSample (start seed) ;;
  repeatM (loopCount (Iterations config)) iteration st.

Definition OptimizeHyperparameters (seed : Rand F) : outcome (list (carrier F t)) :=
  st <- run seed ;;
  Returns (bestParams st).

End Run.

End Driver.

Arguments driver F t : clear implicits.
Arguments search F t : clear implicits.

(* ================================================================== *)
(** ** Exact arithmetic: [float64] read as the real numbers *)

Module Exact.

Definition ltb (a b : R) : bool := if Rlt_dec a b then true else false.

(** [math.MaxFloat64 = 0x1p1023 * (1 + (1 - 0x1p-52))]. *)
Definition maxFloat64 : R := IZR ((2 ^ 53 - 1) * 2 ^ 971).

#[global] Instance ops : Float64Ops R := {|
  f_add := Rplus;
  f_sub := Rminus;
  f_mul := Rmult;
  f_div := Rdiv;
  f_neg := Ropp;
  f_lt := ltb;
  f_of_int := IZR;
  Sqrt := R_sqrt.sqrt;
  Exp := Rtrigo_def.exp;
  MaxFloat64 := maxFloat64;
  f_to_float32 := fun x => x
|}.

End Exact.

(* ================================================================== *)
(** ** IEEE 754 binary64 *)

Module Binary64.

Local Open Scope float_scope.
Local Open Scope bool_scope.

(** [float64(v)] for an integer [v]: the nearest float, ties to even. *)
Definition of_int (z : Z) : float :=
  SF2Prim (binary_normalize prec emax z 0 false).

(** [float32(x)]: [x] rounded to the 24 bits and the exponents of binary32. *)
Definition to_float32 (x : float) : float :=
  match Prim2SF x with
  | S754_finite s m e => SF2Prim (binary_normalize 24 128 (cond_Zopp s (Z.pos m)) e s)
  | _ => x
  end.

(** [int(x)] for a float [x]: the integer part. *)
Definition trunc (x : float) : Z :=
  match Prim2SF x with
  | S754_finite s m e =>
      cond_Zopp s (if (0 <=? e)%Z then Z.pos m * 2 ^ e else Z.pos m / 2 ^ (- e))%Z
  | _ => 0%Z
  end.

(** [math.Exp], after the portable implementation of Go's package [math]
    ([exp] and [expmulti] of exp.go).  Go documents its special cases:
    [Exp(+Inf) = +Inf], [Exp(NaN) = NaN], very large values overflow to
    [+Inf] and very small values underflow to 0. *)
Definition expmulti (hi lo : float) (k : Z) : float :=
  let P1 := 0x1.5555555555555p-3 in
  let P2 := -0x1.6c16c16bebd93p-9 in
  let P3 := 0x1.1566aaf25de2cp-14 in
  let P4 := -0x1.bbd41c5d26bf1p-20 in
  let P5 := 0x1.6376972bea4d0p-25 in
  let r := hi - lo in
  let t := r * r in
  let c := r - t * (P1 + t * (P2 + t * (P3 + t * (P4 + t * P5)))) in
  let y := 1 - ((lo - (r * c) / (2 - c)) - hi) in
  Z.ldexp y k.

Definition exp (x : float) : float :=
  let Ln2Hi := 0x1.62e42feep-1 in
  let Ln2Lo := 0x1.a39ef35793c76p-33 in
  let Log2e := 0x1.71547652b82fep+0 in
  let Overflow := 0x1.62e42fefa39efp+9 in
  let Underflow := -0x1.74910d52d3051p+9 in
  let NearZero := 0x1p-28 in
  if is_nan x || (x =? infinity) then x
  else if x =? neg_infinity then 0
  else if Overflow <? x then infinity
  else if x <? Underflow then 0
  else if (- NearZero <? x) && (x <? NearZero) then 1 + x
  else
    let k := if x <? 0 then trunc (Log2e * x - 0.5)
             else if 0 <? x then trunc (Log2e * x + 0.5)
             else 0%Z in
    let hi := x - of_int k * Ln2Hi in
    let lo := of_int k * Ln2Lo in
    expmulti hi lo k.

#[global] Instance ops : Float64Ops float := {|
  f_add := PrimFloat.add;
  f_sub := PrimFloat.sub;
  f_mul := PrimFloat.mul;
  f_div := PrimFloat.div;
  f_neg := PrimFloat.opp;
  f_lt := PrimFloat.ltb;
  f_of_int := of_int;
  Sqrt := PrimFloat.sqrt;
  Exp := exp;
  MaxFloat64 := 0x1.fffffffffffffp+1023;
  f_to_float32 := to_float32
|}.

End Binary64.

(* ================================================================== *)
(** ** The rest of the package: probability helpers, PI and EI *)

(** What [normalCDF] and [normalPDF] take from package [math] besides
    [math.Exp] and [math.Sqrt]: the function [math.Erf] and the constants
    [math.Pi] and [math.Sqrt2]. *)
Class MathLib (F : Type) : Type := {
  Erf : F -> F;
  Pi : F;
  Sqrt2 : F
}.

(** Exact arithmetic: the numbers pi and the square root of 2; [erf] is
    whatever stands for [math.Erf]. *)
Definition exactMath (erf : R -> R) : MathLib R :=
  {| Erf := erf; Pi := PI; Sqrt2 := R_sqrt.sqrt 2 |}.

(** Binary64: the float64 nearest to pi and to the square root of 2. *)
Definition binary64Math (erf : float -> float) : MathLib float :=
  {| Erf := erf;
     Pi := 0x1.921fb54442d18p+1%float;
     Sqrt2 := 0x1.6a09e667f3bcdp+0%float |}.

Section Probability.

Context {F : Type} {ops : Float64Ops F} {lib : MathLib F}.
Local Open Scope f64_scope.

(** [0.5 * (1.0 + math.Erf(x/math.Sqrt2))]; the constant 0.5 is 1/2. *)
Definition normalCDF (x : F) : F :=
  1 / 2 * (1 + Erf (x / Sqrt2)).

(** [math.Exp(-x*x/2.0) / math.Sqrt(2.0*math.Pi)] *)
Definition normalPDF (x : F) : F :=
  Exp (- x * x / 2) / Sqrt (2 * Pi).

Definition ProbabilityOfImprovement : AcquisitionFunc F :=
  fun mean variance params =>
    let z := (mean - BestSoFar params - Xi params) / Sqrt variance in
    Returns (normalCDF z, RandomState params).

Definition ExpectedImprovement : AcquisitionFunc F :=
  fun mean variance params =>
    let sigma := Sqrt variance in
    let z := (mean - BestSoFar params - Xi params) / sigma in
    Returns ((mean - BestSoFar params - Xi params) * normalCDF z
             + sigma * normalPDF z,
             RandomState params).

End Probability.

(* ================================================================== *)
(** ** The rest of the package: helpers of [utils.go] *)

Section Helpers.

Context {F : Type} {ops : Float64Ops F}.
Local Open Scope f64_scope.

(** [measureExecutionTime(f, params)], [made] the number of calls of [f]
    made before this one: the duration of the call, or
    [math.MaxFloat64/2] plus the duration when the call fails. *)
Definition measureExecutionTime (f : BenchmarkFunc F (Predeclared Tint))
  (made : nat) (params : list Z) : F :=
  let call := f made params in
  let duration := nanoseconds call in
  if failed call then
    let penaltyValue := MaxFloat64 / 2 in
    penaltyValue + f_of_int duration
  else f_of_int duration.

(** [intsToFloats(ints)] *)
Definition intsToFloats (ints : list Z) : list F :=
  map f_of_int ints.

End Helpers.

(* ================================================================== *)
(** ** Progress updates ([sendProgress] of [ho.go]) *)

(** A channel with a buffer, as the sender sees it between two of its
    sends: what the buffer holds, what the receiver has taken out so far,
    and how many sends were attempted. *)
Record Chan (A : Type) : Type := {
  capacity : nat;
  buffer : list A;
  received : list A;
  attempts : nat
}.

(** What the goroutines at the other end do: before the [k]-th send they
    take [takes k] values out of the buffer (as many as there are, at
    most), one of them is, or is not, blocked in a receive at that moment,
    and they have, or have not, closed the channel by then. *)
Record Receiver : Type := {
  takes : nat -> nat;
  waiting : nat -> bool;
  closes : nat -> bool
}.

(** [select { case ch <- v: default: }].  On a closed channel the send
    panics (the runtime's [panic(plainError("send on closed channel"))]).
    Otherwise it proceeds when a receiver is blocked on the empty channel
    (the value goes to it) or when the buffer has room; if neither, the
    [default] branch is taken and [v] is dropped.  It never blocks. *)
Definition trySend {A : Type} (rcv : Receiver) (ch : Chan A) (v : A)
  : outcome (Chan A) :=
  let k := attempts ch in
  let taken := firstn (takes rcv k) (buffer ch) in
  let left := skipn (takes rcv k) (buffer ch) in
  if closes rcv k then Panics (ExplicitPanic "send on closed channel")
  else if Nat.eqb (length left) 0 && waiting rcv k then
    Returns {| capacity := capacity ch;
               buffer := [];
               received := received ch ++ taken ++ [v];
               attempts := S k |}
  else if Nat.ltb (length left) (capacity ch) then
    Returns {| capacity := capacity ch;
               buffer := left ++ [v];
               received := received ch ++ taken;
               attempts := S k |}
  else
    Returns {| capacity := capacity ch;
               buffer := left;
               received := received ch ++ taken;
               attempts := S k |}.

Section Progress.

Context {F : Type} {ops : Float64Ops F}.

(** [type ProgressUpdate struct] *)
Record ProgressUpdate : Type := {
  Phase : string;
  CurrentIteration : Z;
  TotalIterations : Z;
  CurrentParams : list Z;
  CurrentBestParams : list Z;
  CurrentBestTime : F;
  LastExecutionTime : F
}.

(** The conversion [int(v)] of a float; Go leaves it to the implementation
    outside the range of [int]. *)
Variable truncate : F -> Z.

Definition intOfKind (b : basicKind) : (if isFloatKind b then F else Z) -> Z :=
  match b with
  | Tfloat32 | Tfloat64 => truncate
  | _ => fun v => int64 v
  end.

(** The conversion [int(v)] of a [v] of type [T]. *)
Definition intOf (t : numType) : carrier F t -> Z :=
  match t with Predeclared b | Defined b => intOfKind b end.

Variable t : numType.
Variable config : OptimizationConfig F.
Variable benchmarkFunc : BenchmarkFunc F t.
Variable hypers : list (ParameterRange F t).
Variable rcv : Receiver.

(** [sendProgress(phase, iteration, total, currentParams, execTime)] in the
    state [st] of the driver; [chan] is [config.ProgressChan], [None] for
    nil. *)
Definition sendProgress (chan : option (Chan ProgressUpdate)) (st : driver F t)
  (phase : string) (iteration total : Z) (currentParams : list (carrier F t))
  (execTime : F) : outcome (option (Chan ProgressUpdate)) :=
  match chan with
  | None => Returns None
  | Some ch =>
      let currentInts := map (intOf t) currentParams in
      let bestInts := map (intOf t) (bestParams st) in
      let update :=
        {| Phase := phase;
           CurrentIteration := iteration;
           TotalIterations := total;
           CurrentParams := currentInts;
           CurrentBestParams := bestInts;
           CurrentBestTime := bestTime st;
           LastExecutionTime := execTime |} in
      ch' <- trySend rcv ch update ;;
      Returns (Some ch')
  end.

(** [for i := 0; i < n; i++ { s = body(i, s) }] *)
Fixpoint forM {S : Type} (n : nat) (i : Z) (body : Z -> S -> outcome S) (s : S)
  : outcome S :=
  match n with
  | O => Returns s
  | Datatypes.S n' => s' <- body i s ;; forM n' (i + 1)%Z body s'
  end.

(** The body of the loop of phase 1, with its last statement. *)
Definition initialSampleProgress (i : Z)
  (sc : driver F t * option (Chan ProgressUpdate))
  : outcome (driver F t * option (Chan ProgressUpdate)) :=
  let st := fst sc in
  '(params, rng') <- safeRandomParams hypers (rng st) ;;
  let executionTime := measure benchmarkFunc st params in
  let st' := record st rng' params executionTime in
  chan' <- sendProgress (snd sc) st' "InitialSampling" (i + 1)%Z
             (InitialSamples config) params executionTime ;;
  Returns (st', chan').

(** The body of the loop of phase 2, with its last statement. *)
Definition iterationProgress (i : Z)
  (sc : driver F t * option (Chan ProgressUpdate))
  : outcome (driver F t * option (Chan ProgressUpdate)) :=
  let st := fst sc in
  s <- selectCandidate config hypers st ;;
  let st0 := afterSearch st s in
  let executionTime := measure benchmarkFunc st0 (nextParams s) in
  let st' := record st0 (s_rng s) (nextParams s) executionTime in
  chan' <- sendProgress (snd sc) st' "Optimization" (i + 1)%Z
             (Iterations config) (nextParams s) executionTime ;;
  Returns (st', chan').

(** The two phases with their progress updates; [chan] is
    [config.ProgressChan] as the caller made it. *)
Definition runProgress (seed : Rand F) (chan : option (Chan ProgressUpdate))
  : outcome (driver F t * option (Chan ProgressUpdate)) :=
  sc <- forM (loopCount (InitialSamples config)) 0 initialSampleProgress
          (start config hypers seed, chan) ;;
  forM (loopCount (Iterations config)) 0 iterationProgress sc.

End Progress.

Arguments ProgressUpdate F : clear implicits.

(* ================================================================== *)
(** ** The surrogate model as the specification words it *)

Module SurrogateSpec.

Local Open Scope R_scope.

Definition Rsum (l : list R) : R := fold_right Rplus 0 l.

(** [exp(-Sum_i (a_i - b_i)^2 / (2 sigma^2))] *)
Definition kernel (sigma : R) (a b : list R) : R :=
  Rtrigo_def.exp
    (- (Rsum (map (fun ab => (fst ab - snd ab) ^ 2) (combine a b)) / (2 * sigma ^ 2))).

(** [(1/n) Sum_i k_i y_i], over the observations [(x_i, y_i)]. *)
Definition mean (sigma : R) (obs : list (list R * R)) (x : list R) : R :=
  1 / INR (length obs) *
  Rsum (map (fun o => kernel sigma x (fst o) * snd o) obs).

(** [1 - (1/n) Sum_i Sum_j k_i k_j] *)
Definition variance (sigma : R) (obs : list (list R * R)) (x : list R) : R :=
  1 - 1 / INR (length obs) *
      Rsum (map (fun oi =>
              Rsum (map (fun oj => kernel sigma x (fst oi) * kernel sigma x (fst oj)) obs))
            obs).

End SurrogateSpec.

(** ** The selection as the specification words it *)

Module SelectionSpec.

Local Open Scope R_scope.

(** The [j]-th of the scored candidates [l] has the minimum score, and is
    the first to have it. *)
Definition firstMinimum (A : Type) (l : list (A * R)) (j : nat) : Prop :=
  exists c a,
    nth_error l j = Some (c, a) /\
    (forall i c' a', nth_error l i = Some (c', a') -> a <= a') /\
    (forall i c' a', (i < j)%nat -> nth_error l i = Some (c', a') -> a < a').

End SelectionSpec.

(** The model holds the observations [obs], in their order. *)
Definition holds {F : Type} (gp : gaussianProcess F) (obs : list (list F * F)) : Prop :=
  X gp = map fst obs /\ Y gp = map snd obs.

(* ================================================================== *)
(** ** Vocabulary of the properties *)

Section Vocabulary.

Context {F : Type} {ops : Float64Ops F}.

(** The types the type switch of [safeRandomParams] has a case for. *)
Definition sampled (t : numType) : bool :=
  match t with
  | Predeclared Tint | Predeclared Tint32 | Predeclared Tint64
  | Predeclared Tfloat32 | Predeclared Tfloat64 => true
  | _ => false
  end.

(** A range [rng.Int63n] accepts: for the three integer cases,
    [max - min + 1 > 0] as the code computes it. *)
Definition admissible (t : numType) : ParameterRange F t -> bool :=
  match t with
  | Predeclared Tint => fun hyper =>
      (0 <? int64 (int64 (Max hyper) - int64 (Min hyper) + 1))%Z
  | Predeclared Tint32 => fun hyper =>
      (0 <? int64 (int64 (Max hyper) - int64 (Min hyper) + 1))%Z
  | Predeclared Tint64 => fun hyper =>
      (0 <? int64 (int64 (Max hyper) - int64 (Min hyper) + 1))%Z
  | _ => fun _ => true
  end.

(** An acquisition function that returns, with a score below
    [math.MaxFloat64], whatever it is given. *)
Definition scoresBelowMax (acq : AcquisitionFunc F) : Prop :=
  forall mean variance params,
    exists a state,
      acq mean variance params = Returns (a, state) /\
      f_lt a MaxFloat64 = true.

(** A configuration whose phase 2 selects a candidate in every iteration:
    it has no iteration, or it has candidates and an acquisition function
    that scores them below [math.MaxFloat64]. *)
Definition selects (config : OptimizationConfig F) : Prop :=
  (Iterations config <= 0)%Z \/
  (scoresBelowMax (AcquisitionFunc_ config) /\ (0 < NumCandidates config)%Z).

(** One evaluation of the objective: an iteration of either phase that
    returns. *)
Inductive evaluation (t : numType) (config : OptimizationConfig F)
  (benchmarkFunc : BenchmarkFunc F t) (hypers : list (ParameterRange F t))
  : driver F t -> driver F t -> Prop :=
| evaluation_initial : forall st st',
    initialSample benchmarkFunc hypers st = Returns st' ->
    evaluation config benchmarkFunc hypers st st'
| evaluation_guided : forall st st',
    iteration config benchmarkFunc hypers st = Returns st' ->
    evaluation config benchmarkFunc hypers st st'.

(** The model's points all have dimension [d], and it has as many costs as
    points. *)
Definition wellFormed (d : nat) (gp : gaussianProcess F) : Prop :=
  Forall (fun xi => length xi = d) (X gp) /\ length (Y gp) = length (X gp).

(** The cost recorded for a failed call of [d] nanoseconds:
    [math.MaxFloat64/2 + executionTime]. *)
Definition penalty (d : Z) : F :=
  f_add (f_div MaxFloat64 (f_of_int 2)) (f_of_int d).


(** The state of the driver between two iterations of a run that has
    evaluated points of the declared dimension only. *)
Definition sound (t : numType) (hypers : list (ParameterRange F t))
  (st : driver F t) : Prop :=
  length (bestParams st) = length hypers /\
  wellFormed (length hypers) (gp st).

(** The candidates the loop of one iteration draws, each with its score,
    in the order they are drawn: the statements of [scoreCandidate], [n]
    times, from the generators [rng] and [params.RandomState]. *)
Fixpoint scoredCandidates (t : numType) (config : OptimizationConfig F)
  (hypers : list (ParameterRange F t)) (model : gaussianProcess F) (n : nat)
  (rng : Rand F) (params : AcquisitionParams F)
  : outcome (list (list (carrier F t) * F)) :=
  match n with
  | O => Returns []
  | S n' =>
      bind (scoreCandidate config hypers model rng params)
        (fun r =>
           match r with
           | (c, a, rng', state) =>
               bind (scoredCandidates config hypers model n' rng' (withState params state))
                    (fun rest => Returns ((c, a) :: rest))
           end)
  end.

(** [if acquisition < bestAcquisition { ... }] on the pair
    [(nextParams, bestAcquisition)]. *)
Definition keepLower (A : Type) (best : A * F) (scored : A * F) : A * F :=
  if f_lt (snd scored) (snd best) then scored else best.

(** [config.AcqParams] as an iteration of phase 2 passes it to the
    acquisition function: [BestSoFar] refreshed to the best cost. *)
Definition refreshed (t : numType) (st : driver F t) : AcquisitionParams F :=
  {| Beta := Beta (acqParams st);
     Xi := Xi (acqParams st);
     BestSoFar := bestTime st;
     RandomState := RandomState (acqParams st) |}.

(** The width of the three integer types the type switch samples. *)
Definition intBits (t : numType) : option Z :=
  match t with
  | Predeclared Tint | Predeclared Tint64 => Some 64%Z
  | Predeclared Tint32 => Some 32%Z
  | _ => None
  end.

Definition integerOf (b : basicKind) : (if isFloatKind b then F else Z) -> Z :=
  match b with
  | Tfloat32 | Tfloat64 => fun _ => 0%Z
  | _ => fun z => z
  end.

(** A value of an integer type [T], as an integer. *)
Definition asInteger (t : numType) : carrier F t -> Z :=
  match t with Predeclared b | Defined b => integerOf b end.



(** The operations on a model, as a caller issues them. *)
Inductive modelOp : Type :=
| DoUpdate (x : list F) (y : F)
| DoSetSigma (s : F).

Definition applyOp (gp : gaussianProcess F) (op : modelOp) : gaussianProcess F :=
  match op with
  | DoUpdate x y => Update gp x y
  | DoSetSigma s => SetSigma gp s
  end.

(** The observations a sequence of operations records, in order, and the
    width it leaves, [s] being the width before. *)
Fixpoint recorded (ops' : list modelOp) : list (list F * F) :=
  match ops' with
  | [] => []
  | DoUpdate x y :: rest => (x, y) :: recorded rest
  | DoSetSigma _ :: rest => recorded rest
  end.

Fixpoint widthAfter (ops' : list modelOp) (s : F) : F :=
  match ops' with
  | [] => s
  | DoUpdate _ _ :: rest => widthAfter rest s
  | DoSetSigma s' :: rest => widthAfter rest s'
  end.

(** A range of an integer type of [bits] bits, within the type, whose
    [Max] is below its [Min], by less than [2^63]: the size
    [Max - Min + 1] the code computes does not wrap around. *)
Definition emptyRange (t : numType) (bits : Z) (hyper : ParameterRange F t) : Prop :=
  (- 2 ^ (bits - 1) <= asInteger t (Max hyper) /\
   asInteger t (Max hyper) < asInteger t (Min hyper) /\
   asInteger t (Min hyper) < 2 ^ (bits - 1) /\
   - 2 ^ 63 <= asInteger t (Max hyper) - asInteger t (Min hyper) + 1)%Z.

(** What a channel has let through: the values received and those still
    in its buffer, oldest first. *)
Definition passed (A : Type) (ch : Chan A) : list A :=
  received ch ++ buffer ch.

(** What a call returns once the second component of its result is
    forgotten. *)
Definition withoutChannel (A B : Type) (m : outcome (A * B)) : outcome A :=
  x <- m ;; Returns (fst x).

(** [l] is [l'] with some of its elements left out, the order kept. *)
Inductive Subsequence (A : Type) : list A -> list A -> Prop :=
| Subsequence_nil : Subsequence [] []
| Subsequence_skip : forall x l l', Subsequence l l' -> Subsequence l (x :: l')
| Subsequence_keep : forall x l l', Subsequence l l' -> Subsequence (x :: l) (x :: l').

(** A channel as [make(chan ProgressUpdate, n)] leaves it. *)
Definition newChan (A : Type) (n : nat) : Chan A :=
  {| capacity := n; buffer := []; received := []; attempts := 0 |}.

(** The phase, iteration number and total of the updates of a phase of
    [n] iterations, in order. *)
Definition labels (phase : string) (total : Z) (n : nat) : list (string * Z * Z) :=
  map (fun i => (phase, (Z.of_nat i + 1)%Z, total)) (seq 0 n).

Definition label (u : ProgressUpdate F) : string * Z * Z :=
  (Phase u, CurrentIteration u, TotalIterations u).


End Vocabulary.

(* ================================================================== *)
(** ** Concrete inputs *)

Module Inputs.

(** Exact arithmetic: two observations at the point [[0]]. *)
Definition twice : list (list R * R) := [([0%R], 5%R); ([0%R], 7%R)].

Definition gpTwice : gaussianProcess R :=
  {| X := [[0%R]; [0%R]]; Y := [5%R; 7%R]; sigma := 1%R |}.

(** Exact arithmetic: a model of width 1 without observations. *)
Definition gpUnit : gaussianProcess R := {| X := []; Y := []; sigma := 1%R |}.

(** Binary64: the model of [newGaussianProcess], width 1. *)
Definition gp64 : gaussianProcess float := {| X := []; Y := []; sigma := 1%float |}.

(** Binary64: acquisition parameters with a nil [RandomState]. *)
Definition nilParams : AcquisitionParams float :=
  {| Beta := 2%float; Xi := 0%float;
     BestSoFar := 0x1.fffffffffffffp+1023%float; RandomState := None |}.

(** A range of [int8]. *)
Definition range8 : ParameterRange float (Predeclared Tint8) :=
  @Build_ParameterRange float (Predeclared Tint8) (-5)%Z 100%Z.

(** A generator whose every answer is 0. *)
Definition zeros : Rand float :=
  {| source := {| src_Int63n := fun _ _ => 0%Z;
                  src_Float64 := fun _ => 0%float;
                  src_NormFloat64 := fun _ => 0%float |};
     drawn := 0 |}.


(** Exact arithmetic: a generator that answers 41 to [Int63n] and 1/4 to
    [Float64]. *)
Definition fixed : Rand R :=
  {| source := {| src_Int63n := fun _ _ => 41%Z;
                  src_Float64 := fun _ => (1 / 4)%R;
                  src_NormFloat64 := fun _ => 0%R |};
     drawn := 0 |}.

(** Binary64: one dimension of type [int] whose range is the single
    value 1. *)
Definition single : ParameterRange float (Predeclared Tint) :=
  @Build_ParameterRange float (Predeclared Tint) 1%Z 1%Z.

(** Binary64: [DefaultConfig()] with two initial samples, one iteration and
    three candidates. *)
Definition ucbConfig : OptimizationConfig float :=
  withCounts (DefaultConfig zeros) 1 2 3.

(** The same with two iterations. *)
Definition ucbConfig2 : OptimizationConfig float :=
  withCounts (DefaultConfig zeros) 2 2 3.

(** An acquisition function of the caller's own, which scores every point
    0. *)
Definition flat : AcquisitionFunc float :=
  fun _ _ params => Returns (0%float, RandomState params).

Definition flatConfig : OptimizationConfig float :=
  {| Iterations := 2;
     InitialSamples := 2;
     NumCandidates := 3;
     AcquisitionFunc_ := flat;
     AcqParams := nilParams |}.

(** An objective that succeeds, each call 20 ns faster than the one
    before. *)
Definition faster : BenchmarkFunc float (Predeclared Tint) :=
  fun i _ => {| failed := false; nanoseconds := 100 - 20 * Z.of_nat i |}.


(** Exact arithmetic: the range [1, 100] of [int], a configuration and an
    objective. *)
Definition hundred : ParameterRange R (Predeclared Tint) :=
  @Build_ParameterRange R (Predeclared Tint) 1%Z 100%Z.

Definition exactConfig : OptimizationConfig R :=
  withCounts (DefaultConfig fixed) 1 1 1.

Definition steady : BenchmarkFunc R (Predeclared Tint) :=
  fun _ _ => {| failed := false; nanoseconds := 100 |}.

(** Exact arithmetic: an acquisition function that scores every point 0,
    and a configuration around it. *)
Definition level : AcquisitionFunc R :=
  fun _ _ params => Returns (0%R, RandomState params).

Definition levelConfig : OptimizationConfig R :=
  {| Iterations := 2;
     InitialSamples := 1;
     NumCandidates := 2;
     AcquisitionFunc_ := level;
     AcqParams := AcqParams exactConfig |}.





(** Exact arithmetic: a stand-in for [math.Erf], the identity cut off at
    -1 and 1; and acquisition parameters with [BestSoFar] 1. *)
Definition clip : R -> R := fun x => Rmax (-1) (Rmin 1 x).

Definition best1 : AcquisitionParams R :=
  {| Beta := 2%R; Xi := 0%R; BestSoFar := 1%R; RandomState := None |}.

(** Exact arithmetic: an objective whose first call fails and whose other
    calls succeed, each after 100 ns. *)
Definition flaky : BenchmarkFunc R (Predeclared Tint) :=
  fun i _ => {| failed := Nat.eqb i 0; nanoseconds := 100 |}.

(** Binary64: a range of [int] whose [Max] is below its [Min]. *)
Definition backwards : ParameterRange float (Predeclared Tint) :=
  @Build_ParameterRange float (Predeclared Tint) 5%Z 1%Z.

(** A receiver that takes one value out of the buffer before every send,
    is blocked in a receive at every other one and never closes the
    channel; one that has closed it from the start; and the conversion
    [int(v)] of a float taken as 0. *)
Definition eager : Receiver :=
  {| takes := fun _ => 1%nat; waiting := Nat.even; closes := fun _ => false |}.

Definition gone : Receiver :=
  {| takes := fun _ => 0%nat; waiting := fun _ => false; closes := fun _ => true |}.

Definition toZero (F : Type) : F -> Z := fun _ => 0%Z.

(** Binary64: [ThompsonSampling] on the generator [zeros], no initial
    sample, two iterations of three candidates. *)
Definition thompsonConfig : OptimizationConfig float :=
  {| Iterations := 2;
     InitialSamples := 0;
     NumCandidates := 3;
     AcquisitionFunc_ := ThompsonSampling;
     AcqParams := AcqParams (DefaultConfig zeros) |}.

End Inputs.

(* ================================================================== *)
(** * Properties *)

(** Unfolds the operations of [Float64Ops] in exact arithmetic. *)
Ltac exact_ops :=
  cbn [f_add f_sub f_mul f_div f_neg f_lt f_of_int Sqrt Exp MaxFloat64
       f_to_float32 Exact.ops] in *.

(** ** The surrogate model in any arithmetic *)

Section SurrogateGeneric.

Context {F : Type} {ops : Float64Ops F}.

(** C2.  On a model with no recorded observation, [Predict] returns mean 0
    and variance 1 for every query point, in every arithmetic. *)
Theorem Predict_no_observation :
  forall (gp : gaussianProcess F) (x : list F),
    X gp = [] -> Predict gp x = Returns (f_of_int 0, f_of_int 1).
Proof.
  intros gp x HX. unfold Predict. rewrite HX. reflexivity.
Qed.

Lemma Update_holds :
  forall (gp : gaussianProcess F) obs x y,
    holds gp obs -> holds (Update gp x y) (obs ++ [(x, y)]).
Proof.
  intros gp obs x y [HX HY]. unfold holds, Update; cbn [X Y].
  rewrite HX, HY, !map_app. split; reflexivity.
Qed.

Lemma newGaussianProcess_holds : holds (@newGaussianProcess F ops) [].
Proof. split; reflexivity. Qed.

Lemma RBFKernel_same_length :
  forall (gp : gaussianProcess F) x1 x2,
    length x1 = length x2 ->
    RBFKernel gp x1 x2 =
    Returns (Exp (f_div (f_neg (squaredDistance x1 x2))
                        (f_mul (f_mul (f_of_int 2) (sigma gp)) (sigma gp)))).
Proof.
  intros gp x1 x2 Hlen. unfold RBFKernel.
  rewrite Hlen, Nat.eqb_refl. reflexivity.
Qed.

(** On vectors of different lengths [RBFKernel] panics, with the message
    of its [panic] statement. *)
Lemma RBFKernel_length_mismatch :
  forall (gp : gaussianProcess F) x1 x2,
    length x1 <> length x2 ->
    RBFKernel gp x1 x2 =
    Panics (ExplicitPanic "input vectors must have the same length").
Proof.
  intros gp x1 x2 Hlen. unfold RBFKernel.
  apply Nat.eqb_neq in Hlen. rewrite Hlen. reflexivity.
Qed.

Lemma kernelValues_returns :
  forall (gp : gaussianProcess F) x xs,
    Forall (fun xi => length xi = length x) xs ->
    exists k, kernelValues gp x xs = Returns k /\ length k = length xs.
Proof.
  intros gp x xs H. induction H as [|xi xs Hxi _ IH]; cbn [kernelValues].
  - exists []. split; reflexivity.
  - destruct IH as (k & Hk & Hlen).
    rewrite RBFKernel_same_length by (symmetry; exact Hxi).
    cbn [bind]. rewrite Hk. cbn [bind].
    eexists. split; [reflexivity|]. cbn [length]. now rewrite Hlen.
Qed.

Lemma weightedSum_returns :
  forall (k ys : list F) i sum,
    length k + i <= length ys ->
    exists s, weightedSum k ys i sum = Returns s.
Proof.
  induction k as [|ki k IH]; intros ys i sum Hlen; cbn [weightedSum].
  - now exists sum.
  - cbn [length] in Hlen.
    destruct (nth_error ys i) as [yi|] eqn:Hnth.
    + apply IH. lia.
    + apply nth_error_None in Hnth. lia.
Qed.

(** [Predict] returns on a model whose points all have the dimension of the
    query and whose costs are as many as its points. *)
Lemma Predict_returns :
  forall (gp : gaussianProcess F) x,
    Forall (fun xi => length xi = length x) (X gp) ->
    length (Y gp) = length (X gp) ->
    exists mv, Predict gp x = Returns mv.
Proof.
  intros gp x HX HY. unfold Predict.
  destruct (Nat.eqb (length (X gp)) 0); [eexists; reflexivity|].
  destruct (kernelValues_returns gp x HX) as (k & Hk & Hlen).
  rewrite Hk. cbn [bind].
  destruct (weightedSum_returns k (Y gp) 0 (f_of_int 0)) as (s & Hs); [lia|].
  rewrite Hs. cbn [bind]. eexists; reflexivity.
Qed.

End SurrogateGeneric.

(** ** The surrogate model in exact arithmetic *)

Section SurrogateExact.

Import Exact SurrogateSpec.
Local Open Scope R_scope.

Lemma fold_left_add :
  forall (A : Type) (f : A -> R) (l : list A) (a : R),
    fold_left (fun s e => s + f e) l a = a + Rsum (map f l).
Proof.
  intros A f l. induction l as [|e l IH]; intros a; cbn [fold_left map Rsum fold_right].
  - ring.
  - rewrite IH. fold (Rsum (map f l)). ring.
Qed.

Lemma fold_left_sub :
  forall (A : Type) (f : A -> R) (l : list A) (a : R),
    fold_left (fun s e => s - f e) l a = a - Rsum (map f l).
Proof.
  intros A f l. induction l as [|e l IH]; intros a; cbn [fold_left map Rsum fold_right].
  - ring.
  - rewrite IH. fold (Rsum (map f l)). ring.
Qed.

Lemma fold_left_pointwise :
  forall (A B : Type) (f g : A -> B -> A) (l : list B) (a : A),
    (forall a' b, f a' b = g a' b) -> fold_left f l a = fold_left g l a.
Proof.
  intros A B f g l. induction l as [|b l IH]; intros a H; cbn [fold_left].
  - reflexivity.
  - rewrite H. now apply IH.
Qed.

Lemma Rsum_scale :
  forall (A : Type) (f : A -> R) (c : R) (l : list A),
    Rsum (map (fun e => f e * c) l) = c * Rsum (map f l).
Proof.
  intros A f c l. induction l as [|e l IH]; cbn [map Rsum fold_right].
  - ring.
  - fold (Rsum (map (fun e => f e * c) l)). fold (Rsum (map f l)). rewrite IH. ring.
Qed.

Lemma Rsum_ext :
  forall (A : Type) (f g : A -> R) (l : list A),
    (forall e, f e = g e) -> Rsum (map f l) = Rsum (map g l).
Proof.
  intros A f g l H. induction l as [|e l IH]; cbn [map Rsum fold_right].
  - reflexivity.
  - fold (Rsum (map f l)). fold (Rsum (map g l)). now rewrite IH, H.
Qed.

Lemma Rsum_nonneg :
  forall (A : Type) (f : A -> R) (l : list A),
    (forall e, 0 <= f e) -> 0 <= Rsum (map f l).
Proof.
  intros A f l H. induction l as [|e l IH]; cbn [map Rsum fold_right].
  - lra.
  - fold (Rsum (map f l)). specialize (H e). lra.
Qed.

Lemma squaredDistance_sum :
  forall a b : list R,
    squaredDistance a b = Rsum (map (fun ab => (fst ab - snd ab) ^ 2) (combine a b)).
Proof.
  intros a b. unfold squaredDistance. exact_ops.
  rewrite (fold_left_add (fun ab => (fst ab - snd ab) * (fst ab - snd ab))).
  rewrite Rplus_0_l. apply Rsum_ext. intros e. ring.
Qed.

Lemma squaredDistance_same : forall a : list R, squaredDistance a a = 0.
Proof.
  intros a. rewrite squaredDistance_sum.
  induction a as [|e a IH]; cbn [combine map Rsum fold_right fst snd].
  - reflexivity.
  - fold (Rsum (map (fun ab => (fst ab - snd ab) ^ 2) (combine a a))).
    rewrite IH. ring.
Qed.

(** The code's kernel is the specification's, on vectors of one length. *)
Lemma RBFKernel_kernel :
  forall (gp : gaussianProcess R) (a b : list R),
    length a = length b ->
    RBFKernel gp a b = Returns (kernel (sigma gp) a b).
Proof.
  intros gp a b Hlen. rewrite RBFKernel_same_length by exact Hlen.
  exact_ops. rewrite squaredDistance_sum. unfold kernel.
  do 2 f_equal.
  replace (2 * sigma gp ^ 2) with (2 * sigma gp * sigma gp) by ring.
  unfold Rdiv. ring.
Qed.

Lemma kernelValues_kernel :
  forall (gp : gaussianProcess R) (x : list R) (obs : list (list R * R)),
    Forall (fun o => length (fst o) = length x) obs ->
    kernelValues gp x (map fst obs) =
    Returns (map (fun o => kernel (sigma gp) x (fst o)) obs).
Proof.
  intros gp x obs H. induction H as [|o obs Ho _ IH]; cbn [map kernelValues].
  - reflexivity.
  - rewrite RBFKernel_kernel by (symmetry; exact Ho). cbn [bind].
    rewrite IH. reflexivity.
Qed.

Lemma weightedSum_sum :
  forall (kf : list R * R -> R) (obs : list (list R * R)) (pre : list R) (s : R),
    weightedSum (map kf obs) (pre ++ map snd obs) (length pre) s =
    Returns (s + Rsum (map (fun o => kf o * snd o) obs)).
Proof.
  intros kf obs. induction obs as [|o obs IH]; intros pre s;
    cbn [map weightedSum Rsum fold_right].
  - f_equal. ring.
  - rewrite nth_error_app2 by lia. rewrite Nat.sub_diag. cbn [nth_error].
    replace (pre ++ snd o :: map snd obs) with ((pre ++ [snd o]) ++ map snd obs)
      by (rewrite <- app_assoc; reflexivity).
    replace (S (length pre)) with (length (pre ++ [snd o]))
      by (rewrite length_app; cbn [length]; lia).
    rewrite IH. exact_ops. f_equal.
    fold (Rsum (map (fun o0 => kf o0 * snd o0) obs)). ring.
Qed.

Lemma varianceLoop_sum :
  forall (k : list R) (n v : R),
    varianceLoop k n v =
    v - 1 / n * Rsum (map (fun ki => Rsum (map (fun kj => ki * kj) k)) k).
Proof.
  intros k n v. unfold varianceLoop. exact_ops.
  rewrite (@fold_left_pointwise _ _
             (fun v0 ki => fold_left (fun v' kj => v' - ki * kj / n) k v0)
             (fun v0 ki => v0 - Rsum (map (fun kj => ki * kj / n) k))).
  2:{ intros v0 ki. apply (fold_left_sub (fun kj => ki * kj / n)). }
  rewrite (fold_left_sub (fun ki => Rsum (map (fun kj => ki * kj / n) k))).
  f_equal.
  rewrite <- (Rsum_scale (fun ki => Rsum (map (fun kj => ki * kj) k)) (1 / n) k).
  apply Rsum_ext. intros ki.
  rewrite Rmult_comm, <- (Rsum_scale (fun kj => ki * kj) (1 / n) k).
  apply Rsum_ext. intros kj. unfold Rdiv. ring.
Qed.

(** [Predict], loop by loop: the sums it accumulates over the kernel
    values of the observations. *)
Lemma Predict_sums :
  forall (gp : gaussianProcess R) (obs : list (list R * R)) (x : list R),
    holds gp obs ->
    obs <> [] ->
    Forall (fun o => length (fst o) = length x) obs ->
    Predict gp x =
    Returns
      ((0 + Rsum (map (fun o => kernel (sigma gp) x (fst o) * snd o) obs))
         / INR (length obs),
       1 - 1 / INR (length obs) *
           Rsum (map (fun ki =>
                   Rsum (map (fun kj => ki * kj)
                           (map (fun o => kernel (sigma gp) x (fst o)) obs)))
                 (map (fun o => kernel (sigma gp) x (fst o)) obs))).
Proof.
  intros gp obs x [HX HY] Hne Hdim. unfold Predict.
  rewrite HX, HY, length_map.
  assert (Hn : Nat.eqb (length obs) 0 = false)
    by (destruct obs; [contradiction|reflexivity]).
  rewrite Hn.
  rewrite kernelValues_kernel by exact Hdim. cbn [bind].
  pose proof (weightedSum_sum (fun o => kernel (sigma gp) x (fst o)) obs [] (f_of_int 0))
    as Hsum.
  cbn [app length] in Hsum. rewrite Hsum. cbn [bind].
  rewrite varianceLoop_sum. exact_ops.
  rewrite <- INR_IZR_INZ. reflexivity.
Qed.



Lemma kernel_same : forall (s : R) (a : list R), kernel s a a = 1.
Proof.
  intros s a. unfold kernel.
  rewrite <- squaredDistance_sum, squaredDistance_same.
  unfold Rdiv. rewrite Rmult_0_l, Ropp_0. apply exp_0.
Qed.

(** The variance [Predict] returns can be negative: two observations at the
    query point give [1 - 4/2]. *)
Lemma Predict_variance_negative :
  Predict Inputs.gpTwice [0] = Returns (6, -1).
Proof.
  rewrite (@Predict_sums Inputs.gpTwice Inputs.twice [0]).
  - unfold Inputs.twice.
    cbn [map fst snd length Rsum fold_right INR sigma Inputs.gpTwice].
    rewrite !kernel_same. f_equal. f_equal; field.
  - split; reflexivity.
  - discriminate.
  - repeat constructor.
Qed.

(** C8, in exact arithmetic.  For vectors [a], [b] of one length and
    [sigma > 0], the kernel is [exp(-Sum_i (a_i - b_i)^2 / (2 sigma^2))],
    it lies in (0, 1], and it is 1 when [a = b]. *)
Theorem RBFKernel_range_exact :
  forall (gp : gaussianProcess R) (a b : list R),
    length a = length b ->
    0 < sigma gp ->
    exists k,
      RBFKernel gp a b = Returns k /\
      k = kernel (sigma gp) a b /\
      0 < k <= 1 /\
      (a = b -> k = 1).
Proof.
  intros gp a b Hlen Hsigma. exists (kernel (sigma gp) a b).
  split; [apply RBFKernel_kernel; exact Hlen|]. split; [reflexivity|].
  split.
  - unfold kernel. split; [apply exp_pos|].
    set (S := Rsum (map (fun ab => (fst ab - snd ab) ^ 2) (combine a b))).
    assert (HS : 0 <= S).
    { apply Rsum_nonneg. intros e. apply pow2_ge_0. }
    assert (Hd : 0 < 2 * sigma gp ^ 2) by nra.
    assert (Hq : 0 <= S / (2 * sigma gp ^ 2)).
    { apply Rmult_le_pos; [exact HS|]. left. apply Rinv_0_lt_compat. exact Hd. }
    rewrite <- exp_0.
    destruct (Req_dec (S / (2 * sigma gp ^ 2)) 0) as [Hz|Hnz].
    + rewrite Hz, Ropp_0. lra.
    + left. apply exp_increasing. lra.
  - intros ->. apply kernel_same.
Qed.

Lemma RBFKernel_range_exact_witness :
  exists k,
    RBFKernel Inputs.gpUnit [0] [3] = Returns k /\
    k = kernel 1 [0] [3] /\ 0 < k <= 1 /\ ([0] = [3] -> k = 1).
Proof.
  apply (@RBFKernel_range_exact Inputs.gpUnit [0] [3]).
  - reflexivity.
  - cbn [sigma Inputs.gpUnit]. lra.
Defined.

End SurrogateExact.

(** ** The surrogate model in binary64 *)

Section SurrogateBinary64.

Import Binary64.
Local Open Scope float_scope.

Lemma Predict_no_observation_witness :
  Predict Inputs.gp64 [3.5] = Returns (0, 1).
Proof.
  exact (@Predict_no_observation float Binary64.ops Inputs.gp64 [3.5] eq_refl).
Defined.

(** In binary64 the kernel of two points 39 apart, at width 1, is
    [math.Exp(-760.5)], which underflows to 0. *)
Lemma RBFKernel_far_points : RBFKernel Inputs.gp64 [0] [39] = Returns 0.
Proof. vm_compute. reflexivity. Qed.

(** C8 fails in binary64: the kernel of finite vectors of one length, at a
    finite width above 0, need not be above 0. *)
Lemma RBFKernel_not_positive_binary64 :
  ~ (forall (gp : gaussianProcess float) (a b : list float),
       length a = length b ->
       Forall (fun v => is_finite v = true) a ->
       Forall (fun v => is_finite v = true) b ->
       is_finite (sigma gp) = true ->
       (0 <? sigma gp) = true ->
       exists k,
         RBFKernel gp a b = Returns k /\
         (0 <? k) = true /\ (k <=? 1) = true /\ (a = b -> k = 1)).
Proof.
  intros H.
  destruct (H Inputs.gp64 [0] [39]) as (k & Hk & Hpos & _).
  - reflexivity.
  - repeat constructor.
  - repeat constructor.
  - reflexivity.
  - reflexivity.
  - rewrite RBFKernel_far_points in Hk. injection Hk as <-.
    vm_compute in Hpos. discriminate.
Qed.

(** Two observations at the query point: the variance is -1 in binary64
    too, and [math.Sqrt] of it is NaN. *)
Lemma Predict_variance_negative_binary64 :
  Predict {| X := [[1]; [1]]; Y := [100; 120]; sigma := 1 |} [1]
  = Returns (110, -1).
Proof. vm_compute. reflexivity. Qed.

(** In binary64 the kernel of a point with itself is not 1 at every width
    above 0: for the width [0x1p-600] the product [2 * sigma * sigma]
    underflows to 0 and the kernel is [math.Exp(-0/0)], NaN. *)
Lemma RBFKernel_same_point_tiny_width :
  RBFKernel {| X := []; Y := []; sigma := 0x1p-600 |} [1] [1] = Returns nan.
Proof. vm_compute. reflexivity. Qed.

Lemma RBFKernel_length_mismatch_witness :
  RBFKernel Inputs.gp64 [1] [1; 2] =
  Panics (ExplicitPanic "input vectors must have the same length").
Proof.
  apply (@RBFKernel_length_mismatch float Binary64.ops Inputs.gp64 [1] [1; 2]).
  discriminate.
Defined.

End SurrogateBinary64.

(** ** Acquisition functions *)

Section AcquisitionFacts.

Context {F : Type} {ops : Float64Ops F}.

(** C9, as the code has it.  [ThompsonSampling] with a nil [RandomState]
    aborts with the runtime's nil pointer dereference, raised when
    [NormFloat64] reads the generator: there is no check and no error of the
    function's own, and no generator is substituted. *)
Theorem ThompsonSampling_nil_RandomState :
  forall (mean variance : F) (params : AcquisitionParams F),
    RandomState params = None ->
    ThompsonSampling mean variance params = Panics NilPointerDereference.
Proof.
  intros mean variance params Hnil. unfold ThompsonSampling.
  rewrite Hnil. reflexivity.
Qed.

(** With a generator, [ThompsonSampling] returns
    [mean + sqrt(variance) * z] for the next normal draw [z], and leaves the
    generator one draw further. *)
Lemma ThompsonSampling_draws :
  forall (mean variance : F) (params : AcquisitionParams F) (r : Rand F),
    RandomState params = Some r ->
    ThompsonSampling mean variance params =
    Returns (f_add mean (f_mul (Sqrt variance)
                               (src_NormFloat64 (source r) (drawn r))),
             Some (advance r)).
Proof.
  intros mean variance params r Hr. unfold ThompsonSampling.
  rewrite Hr. reflexivity.
Qed.

Lemma UCB_returns :
  forall (mean variance : F) (params : AcquisitionParams F),
    UCB mean variance params =
    Returns (f_sub mean (f_mul (Beta params) (Sqrt variance)), RandomState params).
Proof. reflexivity. Qed.

End AcquisitionFacts.

Lemma ThompsonSampling_nil_RandomState_witness :
  ThompsonSampling 0.5%float 0.25%float Inputs.nilParams
  = Panics NilPointerDereference.
Proof.
  apply (@ThompsonSampling_nil_RandomState float Binary64.ops).
  reflexivity.
Defined.

(** C9 fails as stated: with a nil [RandomState] the call does not end in an
    explicit error. *)
Lemma ThompsonSampling_nil_not_explicit :
  ~ (exists msg,
       ThompsonSampling 0.5%float 0.25%float Inputs.nilParams
       = Panics (ExplicitPanic msg)).
Proof.
  intros [msg H]. vm_compute in H. discriminate.
Qed.

(** ** Random parameters *)

Section SamplingFacts.

Context {F : Type} {ops : Float64Ops F}.

Lemma length_setIndex :
  forall (A : Type) (l : list A) (i : nat) (v : A),
    length (setIndex l i v) = length l.
Proof.
  intros A l. induction l as [|a l IH]; intros [|i] v; cbn [setIndex length];
    try reflexivity.
  now rewrite IH.
Qed.

Lemma assignRandom_length :
  forall (t : numType) (hyper : ParameterRange F t) i params rng params' rng',
    assignRandom hyper i params rng = Returns (params', rng') ->
    length params' = length params.
Proof.
  intros t hyper i params rng params' rng' H.
  destruct t as [b|b]; destruct b; cbn [assignRandom] in H;
    try (injection H as <- _; reflexivity).
  all: try (destruct (randomInteger _ _ _ _) as [[v r]|p]; cbn [bind] in H;
            [injection H as <- _; apply length_setIndex | discriminate]).
  all: destruct (randomFloat _ _ _ _) as [v r];
    injection H as <- _; apply length_setIndex.
Qed.

Lemma rangeLoop_length :
  forall (t : numType) (hypers : list (ParameterRange F t)) i params rng params' rng',
    rangeLoop hypers i params rng = Returns (params', rng') ->
    length params' = length params.
Proof.
  intros t hypers. induction hypers as [|hyper rest IH];
    intros i params rng params' rng' H; cbn [rangeLoop] in H.
  - now injection H as <- _.
  - destruct (assignRandom hyper i params rng) as [[p1 r1]|p] eqn:Ha;
      cbn [bind] in H; [|discriminate].
    apply IH in H. rewrite H. eapply assignRandom_length, Ha.
Qed.


Lemma assignRandom_unsampled :
  forall (t : numType) (hyper : ParameterRange F t) i params rng,
    sampled t = false ->
    assignRandom hyper i params rng = Returns (params, rng).
Proof.
  intros t hyper i params rng Ht.
  destruct t as [b|b]; destruct b; try discriminate Ht; reflexivity.
Qed.

Lemma rangeLoop_unsampled :
  forall (t : numType) (hypers : list (ParameterRange F t)) i params rng,
    sampled t = false ->
    rangeLoop hypers i params rng = Returns (params, rng).
Proof.
  intros t hypers. induction hypers as [|hyper rest IH]; intros i params rng Ht;
    cbn [rangeLoop].
  - reflexivity.
  - rewrite assignRandom_unsampled by exact Ht. cbn [bind]. now apply IH.
Qed.

Lemma safeRandomParams_unsampled :
  forall (t : numType) (hypers : list (ParameterRange F t)) rng,
    sampled t = false ->
    safeRandomParams hypers rng =
    Returns (repeat (zeroValue t) (length hypers), rng).
Proof.
  intros t hypers rng Ht. unfold safeRandomParams.
  now apply rangeLoop_unsampled.
Qed.

(** C10.  For a type [T] outside [int], [int32], [int64], [float32],
    [float64], [safeRandomParams] assigns nothing and draws nothing: it
    returns the zero value of [T] in every dimension, whatever [Min] and
    [Max] are.  Phase 1 evaluates the objective on that point, and every
    candidate of phase 2 is that point. *)
Theorem unsampled_types_stay_zero :
  forall (t : numType) (hypers : list (ParameterRange F t)),
    sampled t = false ->
    let zeros := repeat (zeroValue t) (length hypers) in
    (forall rng, safeRandomParams hypers rng = Returns (zeros, rng)) /\
    (forall benchmarkFunc st st',
        initialSample benchmarkFunc hypers st = Returns st' ->
        calls st' = calls st ++ [zeros]) /\
    (forall config model s s',
        candidate config hypers model s = Returns s' ->
        nextParams s' = nextParams s \/ nextParams s' = zeros).
Proof.
  intros t hypers Ht zeros. split; [|split].
  - intros rng. now apply safeRandomParams_unsampled.
  - intros benchmarkFunc st st' H. unfold initialSample in H.
    rewrite safeRandomParams_unsampled in H by exact Ht. cbn [bind] in H.
    injection H as <-. unfold record, updateBest.
    destruct (f_lt _ _); reflexivity.
  - intros config model s s' H. unfold candidate, scoreCandidate in H.
    rewrite safeRandomParams_unsampled in H by exact Ht. cbn [bind] in H.
    destruct (Predict model _) as [[mean variance]|p]; cbn [bind] in H;
      [|discriminate].
    destruct (AcquisitionFunc_ config mean variance (s_acqParams s))
      as [[a state]|p]; cbn [bind] in H; [|discriminate].
    destruct (f_lt a (bestAcquisition s)); injection H as <-; cbn [nextParams];
      [right|left]; reflexivity.
Qed.

End SamplingFacts.

Lemma unsampled_types_stay_zero_witness :
  safeRandomParams [Inputs.range8; Inputs.range8] Inputs.zeros
  = Returns ([0%Z; 0%Z], Inputs.zeros).
Proof.
  exact (proj1 (@unsampled_types_stay_zero float Binary64.ops (Predeclared Tint8)
                  [Inputs.range8; Inputs.range8] eq_refl) Inputs.zeros).
Defined.

Lemma wrapSigned_small :
  forall bits z : Z,
    (0 < bits)%Z ->
    (- 2 ^ (bits - 1) <= z < 2 ^ (bits - 1))%Z ->
    wrapSigned bits z = z.
Proof.
  intros bits z Hbits Hz. unfold wrapSigned.
  replace (2 ^ bits)%Z with (2 * 2 ^ (bits - 1))%Z.
  - rewrite Z.mod_small; lia.
  - rewrite <- Z.pow_succ_r by lia. f_equal. lia.
Qed.


Section SamplingExact.

Local Open Scope R_scope.




End SamplingExact.

(** ** The driver in any arithmetic *)

Section DriverFacts.

Context {F : Type} {ops : Float64Ops F}.
Variable t : numType.
Variable config : OptimizationConfig F.
Variable benchmarkFunc : BenchmarkFunc F t.
Variable hypers : list (ParameterRange F t).

Lemma length_copy :
  forall (A : Type) (dst src : list A), length (copy dst src) = length dst.
Proof.
  intros A dst src. unfold copy.
  rewrite length_app, length_firstn, length_skipn. lia.
Qed.


Lemma repeatM_invariant :
  forall (S : Type) (P : S -> Prop) (body : S -> outcome S),
    (forall s s', P s -> body s = Returns s' -> P s') ->
    forall n s s', P s -> repeatM n body s = Returns s' -> P s'.
Proof.
  intros S P body Hbody n. induction n as [|n IH]; intros s s' Hs H;
    cbn [repeatM] in H.
  - now injection H as <-.
  - destruct (body s) as [s1|p] eqn:Hb; cbn [bind] in H; [|discriminate].
    eapply IH; [|exact H]. eapply Hbody; eassumption.
Qed.

Lemma repeatM_returns :
  forall (S : Type) (P : S -> Prop) (body : S -> outcome S),
    (forall s, P s -> exists s', body s = Returns s' /\ P s') ->
    forall n s, P s -> exists s', repeatM n body s = Returns s' /\ P s'.
Proof.
  intros S P body Hbody n. induction n as [|n IH]; intros s Hs; cbn [repeatM].
  - now exists s.
  - destruct (Hbody s Hs) as (s1 & Hb & Hs1). rewrite Hb. cbn [bind].
    now apply IH.
Qed.

(** What [record] leaves in each variable of the driver. *)
Lemma record_fields :
  forall (st : driver F t) rng' params executionTime,
    let st' := record st rng' params executionTime in
    gp st' = Update (gp st) (paramsToFloat64s t params) executionTime /\
    calls st' = calls st ++ [params] /\
    rng st' = rng' /\
    acqParams st' = acqParams st /\
    bestTime st' =
      (if f_lt executionTime (bestTime st) then executionTime else bestTime st) /\
    bestParams st' =
      (if f_lt executionTime (bestTime st) then copy (bestParams st) params
       else bestParams st).
Proof.
  intros st rng' params executionTime. unfold record, updateBest.
  cbn [bestTime]. destruct (f_lt executionTime (bestTime st));
    cbn [gp calls rng acqParams bestTime bestParams]; repeat split; reflexivity.
Qed.

Lemma record_bestParams_length :
  forall (st : driver F t) rng' params executionTime,
    length (bestParams (record st rng' params executionTime))
    = length (bestParams st).
Proof.
  intros st rng' params executionTime.
  destruct (record_fields st rng' params executionTime)
    as (_ & _ & _ & _ & _ & Hp).
  rewrite Hp. destruct (f_lt _ _); [apply length_copy|reflexivity].
Qed.

(** What an iteration of phase 1 is made of, when it returns. *)
Lemma initialSample_inv :
  forall st st',
    initialSample benchmarkFunc hypers st = Returns st' ->
    exists params rng',
      safeRandomParams hypers (rng st) = Returns (params, rng') /\
      st' = record st rng' params (measure benchmarkFunc st params).
Proof.
  intros st st' H. unfold initialSample in H.
  destruct (safeRandomParams hypers (rng st)) as [[params rng']|p];
    cbn [bind] in H; [|discriminate].
  injection H as <-. now exists params, rng'.
Qed.

(** What an iteration of phase 2 is made of, when it returns. *)
Lemma iteration_inv :
  forall st st',
    iteration config benchmarkFunc hypers st = Returns st' ->
    exists s,
      selectCandidate config hypers st = Returns s /\
      st' = record (afterSearch st s) (s_rng s) (nextParams s)
                   (measure benchmarkFunc (afterSearch st s) (nextParams s)).
Proof.
  intros st st' H. unfold iteration in H.
  destruct (selectCandidate config hypers st) as [s|p]; cbn [bind] in H;
    [|discriminate].
  injection H as <-. now exists s.
Qed.

(** Every evaluation calls the objective once, on some point, and records
    the measured cost with [record]. *)
Lemma evaluation_inv :
  forall st st',
    evaluation config benchmarkFunc hypers st st' ->
    exists st0 rng' params,
      gp st0 = gp st /\ bestParams st0 = bestParams st /\
      bestTime st0 = bestTime st /\ calls st0 = calls st /\
      st' = record st0 rng' params (measure benchmarkFunc st0 params).
Proof.
  intros st st' [st1 st1' H|st1 st1' H].
  - apply initialSample_inv in H. destruct H as (params & rng' & _ & ->).
    exists st1, rng', params. repeat split; reflexivity.
  - apply iteration_inv in H. destruct H as (s & _ & ->).
    exists (afterSearch st1 s), (s_rng s), (nextParams s).
    repeat split; reflexivity.
Qed.

End DriverFacts.

Section DriverClaims.

Context {F : Type} {ops : Float64Ops F}.
Variable t : numType.
Variable config : OptimizationConfig F.
Variable benchmarkFunc : BenchmarkFunc F t.
Variable hypers : list (ParameterRange F t).



(** The objective is called once per iteration of either phase. *)
Lemma evaluation_calls :
  forall st st',
    evaluation config benchmarkFunc hypers st st' ->
    length (calls st') = S (length (calls st)).
Proof.
  intros st st' H. apply evaluation_inv in H.
  destruct H as (st0 & rng' & params & _ & _ & _ & Hc & ->).
  destruct (record_fields st0 rng' params (measure benchmarkFunc st0 params))
    as (_ & Hcalls & _).
  rewrite Hcalls, length_app, Hc. cbn [length]. lia.
Qed.

Lemma evaluation_bestParams_length :
  forall st st',
    evaluation config benchmarkFunc hypers st st' ->
    length (bestParams st') = length (bestParams st).
Proof.
  intros st st' H. apply evaluation_inv in H.
  destruct H as (st0 & rng' & params & _ & Hb & _ & _ & ->).
  now rewrite record_bestParams_length, Hb.
Qed.

Lemma run_bestParams_length :
  forall seed st,
    run config benchmarkFunc hypers seed = Returns st ->
    length (bestParams st) = length hypers.
Proof.
  intros seed st H. unfold run in H.
  destruct (repeatM _ (initialSample benchmarkFunc hypers) _) as [st1|p] eqn:H1;
    cbn [bind] in H; [|discriminate].
  assert (Hst1 : length (bestParams st1) = length hypers).
  { eapply (repeatM_invariant
              (fun s : driver F t => length (bestParams s) = length hypers));
      [| |exact H1].
    - intros s s' Hs Hb. rewrite <- Hs.
      apply evaluation_bestParams_length. now constructor.
    - cbn [start bestParams]. apply repeat_length. }
  eapply (repeatM_invariant
            (fun s : driver F t => length (bestParams s) = length hypers));
    [| exact Hst1 |exact H].
  intros s s' Hs Hb. rewrite <- Hs.
  apply evaluation_bestParams_length. now constructor 2.
Qed.

End DriverClaims.

(** ** The driver returns *)

Section DriverReturns.

Context {F : Type} {ops : Float64Ops F}.
Variable t : numType.
Variable config : OptimizationConfig F.
Variable benchmarkFunc : BenchmarkFunc F t.
Variable hypers : list (ParameterRange F t).

Lemma randomInteger_returns :
  forall bits Min Max (rng : Rand F),
    (0 <? int64 (int64 Max - int64 Min + 1))%Z = true ->
    exists v rng', randomInteger bits Min Max rng = Returns (v, rng').
Proof.
  intros bits Min Max rng H. unfold randomInteger, Int63n.
  apply Z.ltb_lt in H.
  destruct (Z.leb_spec (int64 (int64 Max - int64 Min + 1)) 0) as [Hneg|_]; [lia|].
  cbn [bind]. eexists _, _. reflexivity.
Qed.

Lemma assignRandom_returns :
  forall (hyper : ParameterRange F t) i params rng,
    admissible hyper = true ->
    exists params' rng', assignRandom hyper i params rng = Returns (params', rng').
Proof.
  intros hyper i params rng H. clear config benchmarkFunc hypers.
  destruct t as [b|b]; destruct b; cbn [assignRandom admissible] in *;
    try (eexists _, _; reflexivity).
  all: try (match goal with
            | |- context [randomInteger ?b _ _ _] =>
                destruct (@randomInteger_returns b _ _ rng H) as (v & rng' & ->)
            end; cbn [bind]; eexists _, _; reflexivity).
  all: destruct (randomFloat _ _ _ _) as [v r]; eexists _, _; reflexivity.
Qed.

Lemma rangeLoop_returns :
  forall (hs : list (ParameterRange F t)) i params rng,
    forallb (@admissible F t) hs = true ->
    exists params' rng', rangeLoop hs i params rng = Returns (params', rng').
Proof.
  induction hs as [|hyper rest IH]; intros i params rng H; cbn [rangeLoop].
  - eexists _, _; reflexivity.
  - cbn [forallb] in H. apply andb_true_iff in H. destruct H as [Hh Hrest].
    destruct (assignRandom_returns hyper i params rng Hh) as (p1 & r1 & ->).
    cbn [bind]. now apply IH.
Qed.

Lemma safeRandomParams_returns :
  forall rng,
    forallb (@admissible F t) hypers = true ->
    exists params rng',
      safeRandomParams hypers rng = Returns (params, rng') /\
      length params = length hypers.
Proof.
  intros rng H. unfold safeRandomParams.
  destruct (rangeLoop_returns hypers 0 (repeat (zeroValue t) (length hypers)) rng H)
    as (params & rng' & Hr).
  exists params, rng'. split; [exact Hr|].
  apply rangeLoop_length in Hr. now rewrite Hr, repeat_length.
Qed.

Lemma Update_wellFormed :
  forall d (model : gaussianProcess F) x y,
    wellFormed d model -> length x = d -> wellFormed d (Update model x y).
Proof.
  intros d model x y [HX HY] Hx. unfold wellFormed, Update. cbn [X Y]. split.
  - apply Forall_app. split; [exact HX|]. now constructor.
  - rewrite !length_app, HY. reflexivity.
Qed.

Lemma record_wellFormed :
  forall d (st : driver F t) rng' params executionTime,
    wellFormed d (gp st) -> length params = d ->
    wellFormed d (gp (record st rng' params executionTime)).
Proof.
  intros d st rng' params executionTime Hwf Hlen.
  destruct (record_fields st rng' params executionTime) as (Hg & _).
  rewrite Hg. apply Update_wellFormed; [exact Hwf|].
  unfold paramsToFloat64s. now rewrite length_map.
Qed.

Lemma initialSample_returns :
  forallb (@admissible F t) hypers = true ->
  forall st, sound hypers st ->
    exists st', initialSample benchmarkFunc hypers st = Returns st' /\ sound hypers st'.
Proof.
  intros Hadm st [Hbest Hwf]. unfold initialSample.
  destruct (safeRandomParams_returns (rng st) Hadm) as (params & rng' & -> & Hlen).
  cbn [bind]. eexists. split; [reflexivity|]. split.
  - now rewrite record_bestParams_length.
  - now apply record_wellFormed.
Qed.

Lemma candidate_returns :
  forallb (@admissible F t) hypers = true ->
  scoresBelowMax (AcquisitionFunc_ config) ->
  forall model s,
    wellFormed (length hypers) model ->
    exists s',
      candidate config hypers model s = Returns s' /\
      (length (nextParams s) = length hypers \/ bestAcquisition s = MaxFloat64 ->
       length (nextParams s') = length hypers).
Proof.
  intros Hadm Hacq model s [HX HY]. unfold candidate, scoreCandidate.
  destruct (safeRandomParams_returns (s_rng s) Hadm) as (params & rng' & -> & Hlen).
  cbn [bind].
  destruct (@Predict_returns F ops model (paramsToFloat64s t params))
    as ([mean variance] & ->).
  { unfold paramsToFloat64s. rewrite length_map, Hlen. exact HX. }
  { exact HY. }
  cbn [bind].
  destruct (Hacq mean variance (s_acqParams s)) as (a & state & -> & Ha).
  cbn [bind].
  destruct (f_lt a (bestAcquisition s)) eqn:Hlt;
    (eexists; split; [reflexivity|]); cbn [nextParams]; intros Hs.
  - exact Hlen.
  - destruct Hs as [Hs|Hs]; [exact Hs|]. rewrite Hs, Ha in Hlt. discriminate.
Qed.

Lemma selectCandidate_returns :
  forallb (@admissible F t) hypers = true ->
  scoresBelowMax (AcquisitionFunc_ config) ->
  (0 < NumCandidates config)%Z ->
  forall st, sound hypers st ->
    exists s,
      selectCandidate config hypers st = Returns s /\
      length (nextParams s) = length hypers.
Proof.
  intros Hadm Hacq Hnum st [_ Hwf]. unfold selectCandidate, loopCount.
  destruct (Z.to_nat (NumCandidates config)) as [|n] eqn:Hn; [lia|].
  cbn [repeatM].
  match goal with |- context [candidate _ _ _ ?s0] => set (first := s0) end.
  destruct (candidate_returns Hadm Hacq first Hwf) as (s1 & -> & Hs1).
  cbn [bind].
  apply (repeatM_returns
           (fun s : search F t => length (nextParams s) = length hypers)).
  - intros s Hs.
    destruct (candidate_returns Hadm Hacq s Hwf) as (s' & Hc & Hs').
    exists s'. split; [exact Hc|]. apply Hs'. now left.
  - apply Hs1. right. reflexivity.
Qed.

Lemma iteration_returns :
  forallb (@admissible F t) hypers = true ->
  scoresBelowMax (AcquisitionFunc_ config) ->
  (0 < NumCandidates config)%Z ->
  forall st, sound hypers st ->
    exists st', iteration config benchmarkFunc hypers st = Returns st' /\ sound hypers st'.
Proof.
  intros Hadm Hacq Hnum st Hst. unfold iteration.
  destruct (selectCandidate_returns Hadm Hacq Hnum Hst) as (s & -> & Hlen).
  destruct Hst as [Hbest Hwf].
  cbn [bind]. eexists. split; [reflexivity|]. split.
  - now rewrite record_bestParams_length.
  - now apply record_wellFormed.
Qed.

(** On admissible ranges, with an acquisition function whose scores are
    below [math.MaxFloat64] and at least one candidate, both phases run to
    their end. *)
Lemma run_returns :
  forallb (@admissible F t) hypers = true ->
  selects config ->
  forall seed,
    exists st, run config benchmarkFunc hypers seed = Returns st /\ sound hypers st.
Proof.
  intros Hadm Hsel seed. unfold run.
  assert (H0 : sound hypers (start config hypers seed)).
  { split; cbn [start bestParams gp].
    - apply repeat_length.
    - split; [constructor|reflexivity]. }
  destruct (@repeatM_returns _ (sound hypers) (initialSample benchmarkFunc hypers)
              (initialSample_returns Hadm)
              (loopCount (InitialSamples config)) _ H0) as (st1 & -> & H1).
  cbn [bind].
  destruct Hsel as [Hnone|[Hacq Hnum]].
  - unfold loopCount.
    replace (Z.to_nat (Iterations config)) with 0%nat by lia.
    cbn [repeatM]. now exists st1.
  - apply (@repeatM_returns _ (sound hypers) (iteration config benchmarkFunc hypers)
             (iteration_returns Hadm Hacq Hnum)
             (loopCount (Iterations config)) _ H1).
Qed.

(** C7.  Whatever the counts, the objective and the generator, a vector
    [OptimizeHyperparameters] returns has one entry per declared range; and
    the call does return one when [Int63n] accepts every range and phase 2
    selects a candidate in every iteration. *)
Theorem result_length :
  forall seed : Rand F,
    (forall v,
        OptimizeHyperparameters config benchmarkFunc hypers seed = Returns v ->
        length v = length hypers) /\
    (forallb (@admissible F t) hypers = true ->
     selects config ->
     exists v,
       OptimizeHyperparameters config benchmarkFunc hypers seed = Returns v /\
       length v = length hypers).
Proof.
  intros seed. split.
  - intros v H. unfold OptimizeHyperparameters in H.
    destruct (run config benchmarkFunc hypers seed) as [st|p] eqn:Hrun;
      cbn [bind] in H; [|discriminate].
    injection H as <-. eapply run_bestParams_length, Hrun.
  - intros Hadm Hsel. unfold OptimizeHyperparameters.
    destruct (run_returns Hadm Hsel seed) as (st & -> & Hst).
    cbn [bind]. exists (bestParams st). split; [reflexivity|]. apply Hst.
Qed.

End DriverReturns.

(** ** The driver on concrete inputs, in binary64 *)


Lemma flat_scoresBelowMax : scoresBelowMax Inputs.flat.
Proof.
  intros mean variance params. eexists _, _. split; reflexivity.
Defined.

Lemma result_length_witness :
  exists v,
    OptimizeHyperparameters Inputs.flatConfig Inputs.faster [Inputs.single]
      Inputs.zeros = Returns v /\
    length v = 1.
Proof.
  apply (proj2 (@result_length float Binary64.ops (Predeclared Tint)
                  Inputs.flatConfig Inputs.faster [Inputs.single] Inputs.zeros)).
  - reflexivity.
  - right. split; [exact flat_scoresBelowMax|reflexivity].
Defined.

(** In binary64 the recorded penalty does not keep the duration: the sum
    [math.MaxFloat64/2 + d] rounds to [math.MaxFloat64/2] for a call of 5 ns
    as for a call of one hour. *)
Lemma penalty_absorbs_duration :
  penalty 5 = f_div MaxFloat64 (f_of_int 2) :> float /\
  penalty 3600000000000 = penalty 5 :> float.
Proof. split; vm_compute; reflexivity. Qed.

(** C3 on the failing input: [DefaultConfig()]'s UCB over the one-point
    range [1, 1], two initial samples, then one iteration with three
    candidates.  Each candidate is [[1]], where the model's variance is -1
    and the score [mean - 2 * math.Sqrt(-1)] is NaN; no score is below
    [bestAcquisition], [nextParams] stays nil, and the third call of the
    objective receives no parameter.  Its cost, the lowest, becomes the best
    cost, next to the best parameters of an earlier call. *)
Theorem no_candidate_selected :
  exists st,
    run Inputs.ucbConfig Inputs.faster [Inputs.single] Inputs.zeros = Returns st /\
    calls st = [[1%Z]; [1%Z]; []] /\
    X (gp st) = [[1%float]; [1%float]; []] /\
    Y (gp st) = [100%float; 80%float; 60%float] /\
    bestTime st = 60%float /\
    bestParams st = [1%Z].
Proof.
  eexists. split; [vm_compute; reflexivity|].
  cbn [calls gp X Y bestTime bestParams]. repeat split.
Qed.

(** With one more iteration the same run does not return: the empty point
    is in the model, and the next [Predict] compares it with a candidate of
    dimension 1. *)
Lemma run_panics_after_empty_point :
  OptimizeHyperparameters Inputs.ucbConfig2 Inputs.faster [Inputs.single] Inputs.zeros
  = Panics (ExplicitPanic "input vectors must have the same length").
Proof. vm_compute. reflexivity. Qed.

(** ** The best cost, in exact arithmetic *)

Section BestExact.

Local Open Scope R_scope.

Variable t : numType.
Variable config : OptimizationConfig R.
Variable benchmarkFunc : BenchmarkFunc R t.
Variable hypers : list (ParameterRange R t).

Lemma ltb_lt : forall a b : R, Exact.ltb a b = true <-> a < b.
Proof.
  intros a b. unfold Exact.ltb. destruct (Rlt_dec a b); split; intros H;
    try reflexivity; try assumption; try discriminate; contradiction.
Qed.

Lemma ltb_ge : forall a b : R, Exact.ltb a b = false <-> b <= a.
Proof.
  intros a b. unfold Exact.ltb. destruct (Rlt_dec a b); split; intros H;
    try reflexivity; try discriminate; lra.
Qed.

(** C6.  Every evaluation appends its point and its cost to the model, and
    leaves as best cost the minimum of the previous best cost and the new
    cost, so the best cost never increases; the best parameters are
    overwritten, with the evaluated point, when the new cost is strictly
    lower, and are unchanged otherwise. *)
Theorem best_cost_monotone :
  forall st st' : driver R t,
    evaluation config benchmarkFunc hypers st st' ->
    exists params cost,
      calls st' = calls st ++ [params] /\
      Y (gp st') = Y (gp st) ++ [cost] /\
      bestTime st' = Rmin (bestTime st) cost /\
      bestTime st' <= bestTime st /\
      (cost < bestTime st -> bestParams st' = copy (bestParams st) params) /\
      (~ cost < bestTime st -> bestParams st' = bestParams st).
Proof.
  intros st st' H. apply evaluation_inv in H.
  destruct H as (st0 & rng' & params & Hgp & Hbp & Hbt & Hcalls & ->).
  set (cost := measure benchmarkFunc st0 params).
  destruct (record_fields st0 rng' params cost) as (Hg & Hc & _ & _ & Hb & Hp).
  exists params, cost.
  rewrite Hg, Hc, Hb, Hp, Hgp, Hbp, Hbt, Hcalls. cbn [Update Y f_lt Exact.ops].
  split; [reflexivity|]. split; [reflexivity|].
  destruct (Exact.ltb cost (bestTime st)) eqn:Hlt.
  - apply ltb_lt in Hlt. repeat split.
    + rewrite Rmin_right; lra.
    + lra.
    + intros Hn. contradiction.
  - apply ltb_ge in Hlt. repeat split.
    + rewrite Rmin_left; lra.
    + lra.
    + intros Hc'. lra.
Qed.

End BestExact.

Lemma best_cost_monotone_witness :
  let st := start Inputs.exactConfig [Inputs.hundred] Inputs.fixed in
  let st' := record st (advance Inputs.fixed) [42%Z] (measure Inputs.steady st [42%Z]) in
  exists params cost,
    calls st' = calls st ++ [params] /\
    Y (gp st') = Y (gp st) ++ [cost] /\
    bestTime st' = Rmin (bestTime st) cost /\
    (bestTime st' <= bestTime st)%R /\
    ((cost < bestTime st)%R -> bestParams st' = copy (bestParams st) params) /\
    (~ (cost < bestTime st)%R -> bestParams st' = bestParams st).
Proof.
  intros st st'.
  apply (@best_cost_monotone (Predeclared Tint) Inputs.exactConfig Inputs.steady
           [Inputs.hundred] st st').
  apply evaluation_initial. reflexivity.
Defined.

(** ** The selection among the candidates *)

Section SelectionFacts.

Context {F : Type} {ops : Float64Ops F}.
Variable t : numType.
Variable config : OptimizationConfig F.
Variable hypers : list (ParameterRange F t).

(** The loop over the candidates keeps, of the candidates it draws, what
    [keepLower] keeps of them one after the other. *)
Lemma candidates_fold :
  forall (model : gaussianProcess F) n (s s' : search F t),
    repeatM n (candidate config hypers model) s = Returns s' ->
    exists l,
      scoredCandidates config hypers model n (s_rng s) (s_acqParams s) = Returns l /\
      length l = n /\
      (nextParams s', bestAcquisition s') =
      fold_left (@keepLower F ops _) l (nextParams s, bestAcquisition s).
Proof.
  intros model n. induction n as [|n IH]; intros s s' H;
    cbn [repeatM scoredCandidates] in *.
  - injection H as <-. exists []. repeat split.
  - destruct (candidate config hypers model s) as [s1|p] eqn:Hc;
      cbn [bind] in H; [|discriminate].
    unfold candidate in Hc.
    destruct (scoreCandidate config hypers model (s_rng s) (s_acqParams s))
      as [[[[c a] rng'] state]|p]; cbn [bind] in Hc; [|discriminate].
    cbn [bind].
    assert (Hs1 : s_rng s1 = rng' /\
                  s_acqParams s1 = withState (s_acqParams s) state /\
                  (nextParams s1, bestAcquisition s1) =
                  keepLower (nextParams s, bestAcquisition s) (c, a)).
    { unfold keepLower. cbn [fst snd].
      destruct (f_lt a (bestAcquisition s)); injection Hc as <-;
        repeat split. }
    destruct Hs1 as (Hr & Hp & Hk).
    destruct (IH s1 s' H) as (l & Hl & Hlen & Hfold).
    rewrite Hr, Hp in Hl. rewrite Hl. cbn [bind].
    exists ((c, a) :: l). split; [reflexivity|]. split.
    + cbn [length]. now rewrite Hlen.
    + cbn [fold_left]. now rewrite <- Hk.
Qed.

End SelectionFacts.

Section SelectionExact.

Import SelectionSpec.
Local Open Scope R_scope.

Variable t : numType.
Variable config : OptimizationConfig R.
Variable hypers : list (ParameterRange R t).

Lemma keepLower_fold :
  forall (A : Type) (l : list (A * R)) (c0 : A) (a0 : R) (c : A) (a : R),
    fold_left (@keepLower R Exact.ops A) l (c0, a0) = (c, a) ->
    (c = c0 /\ a = a0 /\
     forall i c' a', nth_error l i = Some (c', a') -> a0 <= a') \/
    (a < a0 /\ exists j, nth_error l j = Some (c, a) /\ firstMinimum l j).
Proof.
  intros A l. induction l as [|[c1 a1] l IH]; intros c0 a0 c a H;
    cbn [fold_left] in H.
  - injection H as <- <-. left. repeat split.
    intros [|i] c' a' Hn; discriminate Hn.
  - unfold keepLower at 2 in H. cbn [fst snd f_lt Exact.ops] in H.
    destruct (Exact.ltb a1 a0) eqn:Hlt.
    + apply ltb_lt in Hlt.
      destruct (IH _ _ _ _ H) as [(-> & -> & Hall)|(Ha & j & Hj & c' & a' & Hj' & Hmin & Hfirst)].
      * right. split; [exact Hlt|]. exists 0%nat. split; [reflexivity|].
        exists c1, a1. split; [reflexivity|]. split.
        -- intros [|i] c' a' Hn; cbn [nth_error] in Hn.
           ++ injection Hn as _ <-. lra.
           ++ eapply Hall, Hn.
        -- intros i c' a' Hi. lia.
      * rewrite Hj in Hj'. injection Hj' as <- <-.
        right. split; [lra|]. exists (S j). split; [exact Hj|].
        exists c, a. split; [exact Hj|]. split.
        -- intros [|i] c' a' Hn; cbn [nth_error] in Hn.
           ++ injection Hn as _ <-. lra.
           ++ eapply Hmin, Hn.
        -- intros [|i] c' a' Hi Hn; cbn [nth_error] in Hn.
           ++ injection Hn as _ <-. exact Ha.
           ++ eapply Hfirst; [|exact Hn]. lia.
    + apply ltb_ge in Hlt.
      destruct (IH _ _ _ _ H) as [(-> & -> & Hall)|(Ha & j & Hj & c' & a' & Hj' & Hmin & Hfirst)].
      * left. repeat split.
        intros [|i] c' a' Hn; cbn [nth_error] in Hn.
        -- injection Hn as _ <-. exact Hlt.
        -- eapply Hall, Hn.
      * rewrite Hj in Hj'. injection Hj' as <- <-.
        right. split; [exact Ha|]. exists (S j). split; [exact Hj|].
        exists c, a. split; [exact Hj|]. split.
        -- intros [|i] c' a' Hn; cbn [nth_error] in Hn.
           ++ injection Hn as _ <-. lra.
           ++ eapply Hmin, Hn.
        -- intros [|i] c' a' Hi Hn; cbn [nth_error] in Hn.
           ++ injection Hn as _ <-. lra.
           ++ eapply Hfirst; [|exact Hn]. lia.
Qed.

(** In exact arithmetic, an iteration of phase 2 draws [NumCandidates]
    candidates and scores each; when some score is below
    [math.MaxFloat64], the point it hands to the objective is the candidate
    of minimum score, the first drawn among those of that score; when none
    is, it hands over the nil slice. *)
Theorem selectCandidate_first_minimum :
  forall (st : driver R t) (s : search R t),
    selectCandidate config hypers st = Returns s ->
    exists l,
      scoredCandidates config hypers (gp st) (loopCount (NumCandidates config))
        (rng st) (refreshed st) = Returns l /\
      length l = loopCount (NumCandidates config) /\
      ((nextParams s = [] /\
        forall i c a, nth_error l i = Some (c, a) -> MaxFloat64 <= a) \/
       (exists j,
           nth_error l j = Some (nextParams s, bestAcquisition s) /\
           bestAcquisition s < MaxFloat64 /\
           firstMinimum l j)).
Proof.
  intros st s H. unfold selectCandidate in H.
  apply candidates_fold in H. cbn [s_rng s_acqParams nextParams bestAcquisition] in H.
  destruct H as (l & Hl & Hlen & Hfold).
  exists l. split; [exact Hl|]. split; [exact Hlen|].
  symmetry in Hfold. apply keepLower_fold in Hfold.
  destruct Hfold as [(Hc & _ & Hall)|(Ha & j & Hj & Hmin)].
  - left. split; [exact Hc|exact Hall].
  - right. exists j. repeat split; assumption.
Qed.

End SelectionExact.

(** ** The whole run *)

Section RunFacts.

Context {F : Type} {ops : Float64Ops F}.
Variable t : numType.
Variable config : OptimizationConfig F.
Variable benchmarkFunc : BenchmarkFunc F t.
Variable hypers : list (ParameterRange F t).

Lemma repeatM_count :
  forall (S : Type) (f : S -> nat) (body : S -> outcome S),
    (forall s s', body s = Returns s' -> f s' = Datatypes.S (f s)) ->
    forall n s s', repeatM n body s = Returns s' -> f s' = n + f s.
Proof.
  intros S f body Hbody n. induction n as [|n IH]; intros s s' H;
    cbn [repeatM] in H.
  - now injection H as <-.
  - destruct (body s) as [s1|p] eqn:Hb; cbn [bind] in H; [|discriminate].
    apply IH in H. apply Hbody in Hb. lia.
Qed.

Lemma evaluation_costs :
  forall st st',
    evaluation config benchmarkFunc hypers st st' ->
    length (Y (gp st')) = S (length (Y (gp st))).
Proof.
  intros st st' H. apply evaluation_inv in H.
  destruct H as (st0 & rng' & params & Hgp & _ & _ & _ & ->).
  destruct (record_fields st0 rng' params (measure benchmarkFunc st0 params))
    as (Hg & _).
  rewrite Hg, Hgp. cbn [Update Y]. rewrite length_app. cbn [length]. lia.
Qed.

(** A run that returns has called the objective once per initial sample
    and once per iteration, whatever the calls reported, and the model
    holds one cost per call. *)
Theorem run_evaluations :
  forall seed st,
    run config benchmarkFunc hypers seed = Returns st ->
    length (calls st) =
      loopCount (InitialSamples config) + loopCount (Iterations config) /\
    length (Y (gp st)) = length (calls st).
Proof.
  intros seed st H. unfold run in H.
  destruct (repeatM _ (initialSample benchmarkFunc hypers) _) as [st1|p] eqn:H1;
    cbn [bind] in H; [|discriminate].
  assert (Hi : forall s s', initialSample benchmarkFunc hypers s = Returns s' ->
                       evaluation config benchmarkFunc hypers s s')
    by (intros; now constructor).
  assert (Hg : forall s s', iteration config benchmarkFunc hypers s = Returns s' ->
                       evaluation config benchmarkFunc hypers s s')
    by (intros; now constructor 2).
  pose proof (@repeatM_count _ (fun s : driver F t => length (calls s)) _
                (fun s s' Hb => evaluation_calls (Hi s s' Hb)) _ _ _ H1) as Hc1.
  pose proof (@repeatM_count _ (fun s : driver F t => length (calls s)) _
                (fun s s' Hb => evaluation_calls (Hg s s' Hb)) _ _ _ H) as Hc2.
  pose proof (@repeatM_count _ (fun s : driver F t => length (Y (gp s))) _
                (fun s s' Hb => evaluation_costs (Hi s s' Hb)) _ _ _ H1) as Hy1.
  pose proof (@repeatM_count _ (fun s : driver F t => length (Y (gp s))) _
                (fun s s' Hb => evaluation_costs (Hg s s' Hb)) _ _ _ H) as Hy2.
  cbn beta in *. cbn [start calls gp newGaussianProcess Y length] in *. lia.
Qed.

End RunFacts.

Section RunExact.

Local Open Scope R_scope.

Variable t : numType.
Variable config : OptimizationConfig R.
Variable benchmarkFunc : BenchmarkFunc R t.
Variable hypers : list (ParameterRange R t).

Lemma evaluation_minimum :
  forall st st' : driver R t,
    evaluation config benchmarkFunc hypers st st' ->
    bestTime st = fold_left Rmin (Y (gp st)) MaxFloat64 ->
    bestTime st' = fold_left Rmin (Y (gp st')) MaxFloat64.
Proof.
  intros st st' H Hst. apply evaluation_inv in H.
  destruct H as (st0 & rng' & params & Hgp & _ & Hbt & _ & ->).
  set (cost := measure benchmarkFunc st0 params).
  destruct (record_fields st0 rng' params cost) as (Hg & _ & _ & _ & Hb & _).
  rewrite Hg, Hb, Hgp, Hbt. cbn [Update Y f_lt Exact.ops].
  rewrite fold_left_app. cbn [fold_left]. rewrite <- Hst.
  destruct (Exact.ltb cost (bestTime st)) eqn:Hlt.
  - apply ltb_lt in Hlt. rewrite Rmin_right; lra.
  - apply ltb_ge in Hlt. rewrite Rmin_left; lra.
Qed.

(** In exact arithmetic, the best cost of a run that returns is the
    minimum of [math.MaxFloat64] and of all the costs recorded in the
    model. *)
Theorem run_best_cost :
  forall seed st,
    run config benchmarkFunc hypers seed = Returns st ->
    bestTime st = fold_left Rmin (Y (gp st)) MaxFloat64.
Proof.
  intros seed st H. unfold run in H.
  destruct (repeatM _ (initialSample benchmarkFunc hypers) _) as [st1|p] eqn:H1;
    cbn [bind] in H; [|discriminate].
  assert (Hst1 : bestTime st1 = fold_left Rmin (Y (gp st1)) MaxFloat64).
  { eapply (@repeatM_invariant _
              (fun s : driver R t => bestTime s = fold_left Rmin (Y (gp s)) MaxFloat64));
      [| |exact H1].
    - intros s s' Hs Hb. eapply evaluation_minimum; [|exact Hs].
      apply evaluation_initial. exact Hb.
    - reflexivity. }
  eapply (@repeatM_invariant _
            (fun s : driver R t => bestTime s = fold_left Rmin (Y (gp s)) MaxFloat64));
    [| exact Hst1 |exact H].
  intros s s' Hs Hb. eapply evaluation_minimum; [|exact Hs].
  apply evaluation_guided. exact Hb.
Qed.

End RunExact.

(** ** Random points of integer type *)

Section IntegerPoints.

Context {F : Type} {ops : Float64Ops F}.





End IntegerPoints.


(** ** Further properties in exact arithmetic *)

Section FurtherExact.

Import SurrogateSpec.
Local Open Scope R_scope.

Lemma squaredDistance_symmetric :
  forall a b : list R, squaredDistance a b = squaredDistance b a.
Proof.
  intros a b. rewrite !squaredDistance_sum. revert b.
  induction a as [|x a IH]; intros [|y b]; cbn [combine map Rsum fold_right fst snd];
    try reflexivity.
  fold (Rsum (map (fun ab => (fst ab - snd ab) ^ 2) (combine a b))).
  fold (Rsum (map (fun ab => (fst ab - snd ab) ^ 2) (combine b a))).
  rewrite IH. ring.
Qed.

(** In exact arithmetic the kernel is symmetric: [RBFKernel(a, b)] and
    [RBFKernel(b, a)] return the same value, or panic alike when the
    lengths differ. *)
Theorem RBFKernel_symmetric :
  forall (gp : gaussianProcess R) (a b : list R),
    RBFKernel gp a b = RBFKernel gp b a.
Proof.
  intros gp a b. unfold RBFKernel.
  rewrite (Nat.eqb_sym (length a) (length b)).
  destruct (Nat.eqb (length b) (length a)); cbn [negb]; [|reflexivity].
  now rewrite squaredDistance_symmetric.
Qed.


End FurtherExact.


(** ** Runs that return, on concrete inputs *)

Lemma level_scoresBelowMax : scoresBelowMax Inputs.level.
Proof.
  intros mean variance params. eexists _, _. split; [reflexivity|].
  apply ltb_lt. unfold Exact.maxFloat64. apply IZR_lt. reflexivity.
Qed.

Lemma run_evaluations_witness :
  exists st,
    run Inputs.flatConfig Inputs.faster [Inputs.single] Inputs.zeros = Returns st /\
    length (calls st) = 4 /\
    length (Y (gp st)) = length (calls st).
Proof.
  destruct (@run_returns float Binary64.ops (Predeclared Tint) Inputs.flatConfig
              Inputs.faster [Inputs.single] eq_refl
              (or_intror (conj flat_scoresBelowMax eq_refl))
              Inputs.zeros) as (st & Hst & _).
  exists st. split; [exact Hst|].
  exact (@run_evaluations float Binary64.ops (Predeclared Tint) Inputs.flatConfig
           Inputs.faster [Inputs.single] Inputs.zeros st Hst).
Defined.

Lemma run_best_cost_witness :
  exists st,
    run Inputs.levelConfig Inputs.steady [Inputs.hundred] Inputs.fixed = Returns st /\
    bestTime st = fold_left Rmin (Y (gp st)) Exact.maxFloat64.
Proof.
  destruct (@run_returns R Exact.ops (Predeclared Tint) Inputs.levelConfig
              Inputs.steady [Inputs.hundred] eq_refl
              (or_intror (conj level_scoresBelowMax eq_refl))
              Inputs.fixed) as (st & Hst & _).
  exists st. split; [exact Hst|].
  exact (@run_best_cost (Predeclared Tint) Inputs.levelConfig Inputs.steady
           [Inputs.hundred] Inputs.fixed st Hst).
Defined.

Lemma selectCandidate_first_minimum_witness :
  let st := start Inputs.levelConfig [Inputs.hundred] Inputs.fixed in
  exists s l,
    selectCandidate Inputs.levelConfig [Inputs.hundred] st = Returns s /\
    scoredCandidates Inputs.levelConfig [Inputs.hundred] (gp st) 2 (rng st) (refreshed st)
      = Returns l /\
    length l = 2 /\
    ((nextParams s = [] /\
      forall i c a, nth_error l i = Some (c, a) -> (Exact.maxFloat64 <= a)%R) \/
     (exists j,
         nth_error l j = Some (nextParams s, bestAcquisition s) /\
         (bestAcquisition s < Exact.maxFloat64)%R /\
         SelectionSpec.firstMinimum l j)).
Proof.
  intros st.
  destruct (@selectCandidate_returns R Exact.ops (Predeclared Tint) Inputs.levelConfig
              [Inputs.hundred] eq_refl level_scoresBelowMax eq_refl st)
    as (s & Hs & _).
  { split; [reflexivity|]. split; [constructor|reflexivity]. }
  exists s.
  destruct (@selectCandidate_first_minimum (Predeclared Tint) Inputs.levelConfig
              [Inputs.hundred] st s Hs) as (l & Hl & Hlen & Hsel).
  exists l. repeat split; assumption.
Defined.

(* ================================================================== *)
(** * Further properties of the package *)

(** ** The surrogate model: panics and sequences of operations *)

Section SurrogateMore.

Context {F : Type} {ops : Float64Ops F}.

Lemma kernelValues_mismatch :
  forall (gp : gaussianProcess F) x xs,
    Exists (fun xi => length xi <> length x) xs ->
    kernelValues gp x xs =
    Panics (ExplicitPanic "input vectors must have the same length").
Proof.
  intros gp x xs. induction xs as [|xi xs IH]; intros H; cbn [kernelValues].
  - inversion H.
  - destruct (Nat.eq_dec (length x) (length xi)) as [Heq|Hne].
    + rewrite RBFKernel_same_length by exact Heq. cbn [bind].
      rewrite IH; [reflexivity|].
      inversion H as [? ? Hbad|? ? Hrest]; subst; [|exact Hrest].
      now symmetry in Heq.
    + rewrite RBFKernel_length_mismatch by exact Hne. reflexivity.
Qed.

(** On a model with an observation whose dimension is not the query's,
    [Predict] panics with the message of [RBFKernel], whatever the other
    observations and the costs are; so does [RBFKernel] on two vectors of
    different lengths. *)
Theorem Predict_dimension_mismatch :
  forall (gp : gaussianProcess F) (x : list F),
    Exists (fun xi => length xi <> length x) (X gp) ->
    Predict gp x =
      Panics (ExplicitPanic "input vectors must have the same length") /\
    (forall xi, In xi (X gp) -> length xi <> length x ->
                RBFKernel gp x xi =
                Panics (ExplicitPanic "input vectors must have the same length")).
Proof.
  intros gp x H. split.
  - unfold Predict.
    destruct (X gp) as [|xi xs] eqn:HX; [inversion H|].
    cbn [length Nat.eqb].
    rewrite kernelValues_mismatch by exact H. reflexivity.
  - intros xi _ Hne. apply RBFKernel_length_mismatch. congruence.
Qed.

Lemma applyOps_holds :
  forall (ops' : list modelOp) (gp : gaussianProcess F) obs,
    holds gp obs ->
    holds (fold_left applyOp ops' gp) (obs ++ recorded ops') /\
    GetSigma (fold_left applyOp ops' gp) = widthAfter ops' (sigma gp).
Proof.
  induction ops' as [|op rest IH]; intros gp obs Hgp; cbn [fold_left recorded widthAfter].
  - rewrite app_nil_r. split; [exact Hgp|reflexivity].
  - destruct op as [x y|s]; cbn [applyOp].
    + destruct (IH (Update gp x y) (obs ++ [(x, y)])) as [Hh Hs].
      { now apply Update_holds. }
      rewrite <- app_assoc in Hh. split; [exact Hh|exact Hs].
    + destruct (IH (SetSigma gp s) obs) as [Hh Hs].
      { destruct Hgp as [HX HY]. split; cbn [SetSigma X Y]; assumption. }
      split; [exact Hh|exact Hs].
Qed.

(** After any sequence of [Update] and [SetSigma] on a new model, the
    model holds exactly the observations of the updates, in their order
    (none is dropped, changed or reordered), as many costs as points, and
    the width of the last [SetSigma], or 1 when there was none. *)
Theorem model_after_operations :
  forall ops' : list modelOp,
    let gp := fold_left applyOp ops' newGaussianProcess in
    holds gp (recorded ops') /\
    length (X gp) = length (Y gp) /\
    GetSigma gp = widthAfter ops' (f_of_int 1).
Proof.
  intros ops' gp.
  destruct (@applyOps_holds ops' newGaussianProcess []) as [Hh Hs].
  { apply newGaussianProcess_holds. }
  cbn [app] in Hh. fold gp in Hh, Hs. split; [exact Hh|]. split; [|exact Hs].
  destruct Hh as [-> ->]. now rewrite !length_map.
Qed.

End SurrogateMore.

(** ** The surrogate model in exact arithmetic: bounds *)

Section SurrogateBounds.

Import SurrogateSpec.
Local Open Scope R_scope.


Lemma Rsum_map_id : forall l : list R, Rsum (map (fun k => k) l) = Rsum l.
Proof. intros l. now rewrite map_id. Qed.

Lemma Rsum_products :
  forall k : list R,
    Rsum (map (fun ki => Rsum (map (fun kj => ki * kj) k)) k) = Rsum k * Rsum k.
Proof.
  intros k.
  rewrite (Rsum_ext (fun ki => Rsum (map (fun kj => ki * kj) k))
                    (fun ki => ki * Rsum k)).
  - rewrite (Rsum_scale (fun ki => ki) (Rsum k) k), Rsum_map_id. reflexivity.
  - intros ki.
    rewrite (Rsum_ext (fun kj => ki * kj) (fun kj => kj * ki))
      by (intros; ring).
    rewrite (Rsum_scale (fun kj => kj) ki k), Rsum_map_id. reflexivity.
Qed.




Lemma INR_length_pos :
  forall (A : Type) (l : list A), l <> [] -> 0 < INR (length l).
Proof.
  intros A [|e l] H; [contradiction|]. apply lt_0_INR. cbn. lia.
Qed.

(** In exact arithmetic, the variance [Predict] returns on a model of
    [n >= 1] observations is [1 - (Sum_i k_i)^2 / n], [k_i] the kernel of
    the query and the [i]-th point: it is at most 1, and it is negative
    exactly when [(Sum_i k_i)^2 > n]. *)
Theorem Predict_variance_square :
  forall (gp : gaussianProcess R) (obs : list (list R * R)) (x : list R),
    holds gp obs ->
    obs <> [] ->
    Forall (fun o => length (fst o) = length x) obs ->
    exists m v,
      Predict gp x = Returns (m, v) /\
      let total := Rsum (map (fun o => kernel (sigma gp) x (fst o)) obs) in
      v = 1 - total ^ 2 / INR (length obs) /\
      v <= 1 /\
      (v < 0 <-> INR (length obs) < total ^ 2).
Proof.
  intros gp obs x Hobs Hne Hdim.
  rewrite (@Predict_sums gp obs x Hobs Hne Hdim).
  eexists _, _. split; [reflexivity|]. cbv zeta.
  set (k := map (fun o => kernel (sigma gp) x (fst o)) obs).
  rewrite Rsum_products.
  pose proof (INR_length_pos Hne) as Hn.
  set (n := INR (length obs)) in *. set (T := Rsum k).
  assert (Hq : 1 / n * (T * T) = T ^ 2 / n) by (field; lra).
  rewrite Hq.
  assert (Hpos : 0 <= T ^ 2 / n).
  { apply Rmult_le_pos; [apply pow2_ge_0|]. left. now apply Rinv_0_lt_compat. }
  split; [reflexivity|]. split; [lra|].
  split; intros H.
  - assert (1 < T ^ 2 / n) by lra.
    apply (Rmult_lt_compat_r n) in H0; [|exact Hn].
    unfold Rdiv in H0. rewrite Rmult_assoc, Rinv_l in H0 by lra. lra.
  - assert (1 < T ^ 2 / n); [|lra].
    apply (Rmult_lt_reg_r n); [exact Hn|].
    unfold Rdiv. rewrite Rmult_assoc, Rinv_l by lra. lra.
Qed.



End SurrogateBounds.

(** ** Probability helpers, PI and EI in exact arithmetic *)

Section ProbabilityExact.

Local Open Scope R_scope.

(** Whatever stands for [math.Erf]. *)
Variable erf : R -> R.

Local Ltac exact_math :=
  cbn [Erf Pi Sqrt2 exactMath] in *; exact_ops.


Lemma normalPDF_exact :
  forall x : R,
    @normalPDF R Exact.ops (exactMath erf) x
    = Rtrigo_def.exp (- (x * x / 2)) / R_sqrt.sqrt (2 * PI).
Proof.
  intros x. unfold normalPDF. exact_math. do 2 f_equal. field.
Qed.


(** In exact arithmetic, at a point whose predicted mean is
    [BestSoFar + Xi] and whose variance is above 0, [ExpectedImprovement]
    is [sqrt(variance) / sqrt(2 pi)], whatever [math.Erf] returns, and
    [ProbabilityOfImprovement] is [(1 + Erf(0)) / 2]. *)
Theorem improvement_at_boundary :
  forall (mean variance : R) (params : AcquisitionParams R),
    0 < variance ->
    mean - BestSoFar params - Xi params = 0 ->
    @ExpectedImprovement R Exact.ops (exactMath erf) mean variance params
    = Returns (R_sqrt.sqrt variance / R_sqrt.sqrt (2 * PI), RandomState params) /\
    @ProbabilityOfImprovement R Exact.ops (exactMath erf) mean variance params
    = Returns ((1 + erf 0) / 2, RandomState params).
Proof.
  intros mean variance params Hv Hz.
  unfold ExpectedImprovement, ProbabilityOfImprovement.
  fold (@normalPDF R Exact.ops (exactMath erf)).
  assert (Hq : f_div (f_sub (f_sub mean (BestSoFar params)) (Xi params))
                     (Sqrt variance) = 0).
  { exact_ops. rewrite Hz. unfold Rdiv. ring. }
  rewrite Hq.
  assert (H0 : @normalPDF R Exact.ops (exactMath erf) 0 = 1 / R_sqrt.sqrt (2 * PI)).
  { rewrite normalPDF_exact. replace (- (0 * 0 / 2)) with 0 by field.
    now rewrite exp_0. }
  rewrite H0. unfold normalCDF. exact_math. rewrite Hz. split.
  - do 2 f_equal. unfold Rdiv. ring.
  - do 2 f_equal. replace (0 / R_sqrt.sqrt 2) with 0 by (unfold Rdiv; ring).
    field.
Qed.


End ProbabilityExact.

(** ** Timing a call, and converting integers *)

Section HelpersFacts.

Context {F : Type} {ops : Float64Ops F}.

(** The driver times a call as [measureExecutionTime] does. *)
Lemma measure_measureExecutionTime :
  forall (f : BenchmarkFunc F (Predeclared Tint)) (st : driver F (Predeclared Tint))
         (params : list Z),
    measure f st params = measureExecutionTime f (length (calls st)) params.
Proof. reflexivity. Qed.

Lemma intsToFloats_paramsToFloat64s :
  forall ints : list Z,
    intsToFloats ints = paramsToFloat64s (F := F) (Predeclared Tint) ints.
Proof. reflexivity. Qed.

End HelpersFacts.

Section HelpersExact.

Local Open Scope R_scope.

Lemma half_maxFloat64_large : IZR (2 ^ 63) < Exact.maxFloat64 / 2.
Proof.
  unfold Exact.maxFloat64.
  replace ((2 ^ 53 - 1) * 2 ^ 971)%Z with (2 * ((2 ^ 53 - 1) * 2 ^ 970))%Z
    by reflexivity.
  rewrite mult_IZR.
  replace (2 * IZR ((2 ^ 53 - 1) * 2 ^ 970) / 2) with (IZR ((2 ^ 53 - 1) * 2 ^ 970))
    by field.
  apply IZR_lt. reflexivity.
Qed.

(** In exact arithmetic a failed call always costs more than a successful
    one, whatever the two durations (non-negative [int64] nanoseconds): in
    [measureExecutionTime], and in the driver, which times its calls the
    same way. *)
Theorem failure_costs_more :
  forall (f : BenchmarkFunc R (Predeclared Tint)) (made1 made2 : nat)
         (params1 params2 : list Z),
    failed (f made1 params1) = true ->
    failed (f made2 params2) = false ->
    (0 <= nanoseconds (f made1 params1))%Z ->
    (nanoseconds (f made2 params2) < 2 ^ 63)%Z ->
    measureExecutionTime f made2 params2 < measureExecutionTime f made1 params1 /\
    (forall st1 st2 : driver R (Predeclared Tint),
        length (calls st1) = made1 -> length (calls st2) = made2 ->
        measure f st2 params2 < measure f st1 params1).
Proof.
  intros f made1 made2 params1 params2 Hf1 Hf2 Hd1 Hd2.
  assert (H : measureExecutionTime f made2 params2
              < measureExecutionTime f made1 params1).
  { unfold measureExecutionTime. rewrite Hf1, Hf2. exact_ops.
    pose proof half_maxFloat64_large as Hm.
    apply IZR_lt in Hd2. apply IZR_le in Hd1. fold Exact.maxFloat64. lra. }
  split; [exact H|].
  intros st1 st2 <- <-. exact H.
Qed.

End HelpersExact.

(** ** Ranges the generator refuses *)

Section SamplingPanics.

Context {F : Type} {ops : Float64Ops F}.

Lemma assignRandom_inadmissible :
  forall (t : numType) (hyper : ParameterRange F t) i params rng,
    admissible hyper = false ->
    assignRandom hyper i params rng =
    Panics (ExplicitPanic "invalid argument to Int63n").
Proof.
  intros t hyper i params rng H.
  destruct t as [b|b]; destruct b; cbn [admissible] in H; try discriminate H;
    cbn [assignRandom]; unfold randomInteger, Int63n;
    apply Z.ltb_ge in H;
    (destruct (Z.leb_spec (int64 (int64 (Max hyper) - int64 (Min hyper) + 1)) 0);
     [reflexivity|lia]).
Qed.

Lemma assignRandom_panic_message :
  forall (t : numType) (hyper : ParameterRange F t) i params rng p,
    assignRandom hyper i params rng = Panics p ->
    p = ExplicitPanic "invalid argument to Int63n".
Proof.
  intros t hyper i params rng p H.
  destruct (admissible hyper) eqn:Ha.
  - destruct (@assignRandom_returns F ops t hyper i params rng Ha)
      as (p' & r' & Hr). congruence.
  - rewrite assignRandom_inadmissible in H by exact Ha. congruence.
Qed.

Lemma rangeLoop_inadmissible :
  forall (t : numType) (hypers : list (ParameterRange F t)) i params rng,
    forallb (@admissible F t) hypers = false ->
    rangeLoop hypers i params rng =
    Panics (ExplicitPanic "invalid argument to Int63n").
Proof.
  intros t hypers. induction hypers as [|hyper rest IH]; intros i params rng H;
    cbn [forallb rangeLoop] in *.
  - discriminate H.
  - destruct (assignRandom hyper i params rng) as [[p1 r1]|p] eqn:Ha; cbn [bind].
    + apply IH. destruct (admissible hyper) eqn:Hadm; [exact H|].
      rewrite assignRandom_inadmissible in Ha by exact Hadm. discriminate Ha.
    + f_equal. eapply assignRandom_panic_message, Ha.
Qed.

Lemma emptyRange_inadmissible :
  forall (t : numType) (bits : Z) (hyper : ParameterRange F t),
    intBits t = Some bits ->
    emptyRange bits hyper ->
    admissible hyper = false.
Proof.
  intros t bits hyper Hbits (Hlo & Hlt & Hhi & Hsize).
  destruct t as [b|b]; destruct b; try discriminate Hbits;
    injection Hbits as <-; cbn [asInteger integerOf admissible] in *;
    apply Z.ltb_ge; unfold int64;
    rewrite (wrapSigned_small (z := Max hyper)) by lia;
    rewrite (wrapSigned_small (z := Min hyper)) by lia;
    rewrite wrapSigned_small by lia; lia.
Qed.

(** A range of type [int], [int32] or [int64] whose [Max] is below its
    [Min] (the size [Max - Min + 1] still an [int64]) makes [safeRandomParams] panic with [Int63n]'s message, wherever
    it stands among the ranges; and with it every run that has an initial
    sample to draw. *)
Theorem empty_range_panics :
  forall (t : numType) (bits : Z) (hypers : list (ParameterRange F t)),
    intBits t = Some bits ->
    Exists (emptyRange bits) hypers ->
    (forall rng,
        safeRandomParams hypers rng =
        Panics (ExplicitPanic "invalid argument to Int63n")) /\
    (forall config benchmarkFunc seed,
        (0 < InitialSamples config)%Z ->
        OptimizeHyperparameters config benchmarkFunc hypers seed =
        Panics (ExplicitPanic "invalid argument to Int63n")).
Proof.
  intros t bits hypers Hbits Hex.
  assert (Hadm : forallb (@admissible F t) hypers = false).
  { apply Exists_exists in Hex. destruct Hex as (hyper & Hin & Hempty).
    destruct (forallb (@admissible F t) hypers) eqn:Hall; [|reflexivity].
    rewrite forallb_forall in Hall. specialize (Hall hyper Hin).
    rewrite (emptyRange_inadmissible Hbits Hempty) in Hall. discriminate Hall. }
  assert (Hs : forall rng,
             safeRandomParams hypers rng =
             Panics (ExplicitPanic "invalid argument to Int63n")).
  { intros rng. unfold safeRandomParams. now apply rangeLoop_inadmissible. }
  split; [exact Hs|].
  intros config benchmarkFunc seed Hn.
  unfold OptimizeHyperparameters, run, loopCount.
  destruct (Z.to_nat (InitialSamples config)) as [|n] eqn:Hnat; [lia|].
  cbn [repeatM]. unfold initialSample at 1. rewrite Hs. reflexivity.
Qed.

End SamplingPanics.

(** ** Progress updates *)

Section ChannelFacts.

Variable A : Type.

Lemma trySend_open :
  forall (rcv : Receiver) (ch : Chan A) (v : A),
    closes rcv (attempts ch) = false ->
    exists ch', trySend rcv ch v = Returns ch'.
Proof.
  intros rcv ch v H. unfold trySend. rewrite H.
  destruct (_ && _); [|destruct (Nat.ltb _ _)]; eexists; reflexivity.
Qed.

Lemma trySend_closed :
  forall (rcv : Receiver) (ch : Chan A) (v : A),
    closes rcv (attempts ch) = true ->
    trySend rcv ch v = Panics (ExplicitPanic "send on closed channel").
Proof.
  intros rcv ch v H. unfold trySend. now rewrite H.
Qed.

Lemma trySend_fields :
  forall (rcv : Receiver) (ch : Chan A) (v : A) (ch' : Chan A),
    trySend rcv ch v = Returns ch' ->
    capacity ch' = capacity ch /\
    attempts ch' = S (attempts ch) /\
    (length (buffer ch') <= S (length (buffer ch)))%nat /\
    ((length (buffer ch) <= capacity ch)%nat ->
     (length (buffer ch') <= capacity ch)%nat) /\
    (passed ch' = passed ch ++ [v] \/
     (passed ch' = passed ch /\ (capacity ch <= length (buffer ch))%nat)).
Proof.
  intros rcv ch v ch' H. unfold trySend in H. unfold passed.
  destruct (closes rcv (attempts ch)); [discriminate|].
  pose proof (firstn_skipn (takes rcv (attempts ch)) (buffer ch)) as Hsplit.
  assert (Hlen : (length (skipn (takes rcv (attempts ch)) (buffer ch))
                  <= length (buffer ch))%nat)
    by (rewrite length_skipn; lia).
  set (taken := firstn (takes rcv (attempts ch)) (buffer ch)) in *.
  set (left := skipn (takes rcv (attempts ch)) (buffer ch)) in *.
  destruct (Nat.eqb (length left) 0 && waiting rcv (attempts ch)) eqn:Hdirect.
  - injection H as <-.
    apply andb_prop in Hdirect. destruct Hdirect as [Hempty _].
    apply Nat.eqb_eq in Hempty. apply length_zero_iff_nil in Hempty.
    rewrite Hempty, app_nil_r in Hsplit.
    cbn [capacity attempts buffer received length].
    rewrite <- Hsplit. rewrite <- ?app_assoc, ?app_nil_r.
    repeat split; try lia; try reflexivity; try (now left).
  - destruct (Nat.ltb (length left) (capacity ch)) eqn:Hroom;
      injection H as <-;
      cbn [capacity attempts buffer received]; rewrite <- Hsplit in *;
      rewrite ?length_app in *; cbn [length]; rewrite <- ?app_assoc.
    + apply Nat.ltb_lt in Hroom.
      repeat split; try lia; try reflexivity; try (now left).
    + apply Nat.ltb_ge in Hroom.
      repeat split; try lia; try reflexivity. right. split; [reflexivity|lia].
Qed.

Lemma Subsequence_snoc_keep :
  forall (l l' : list A) x,
    Subsequence l l' -> Subsequence (l ++ [x]) (l' ++ [x]).
Proof.
  intros l l' x H. induction H; cbn [app].
  - apply Subsequence_keep, Subsequence_nil.
  - now apply Subsequence_skip.
  - now apply Subsequence_keep.
Qed.

Lemma Subsequence_snoc_skip :
  forall (l l' : list A) x,
    Subsequence l l' -> Subsequence l (l' ++ [x]).
Proof.
  intros l l' x H. induction H; cbn [app].
  - apply Subsequence_skip, Subsequence_nil.
  - now apply Subsequence_skip.
  - now apply Subsequence_keep.
Qed.

Lemma Subsequence_app :
  forall (l1 l1' l2 l2' : list A),
    Subsequence l1 l1' -> Subsequence l2 l2' ->
    Subsequence (l1 ++ l2) (l1' ++ l2').
Proof.
  intros l1 l1' l2 l2' H1 H2. induction H1; cbn [app].
  - exact H2.
  - now apply Subsequence_skip.
  - now apply Subsequence_keep.
Qed.

Lemma forM_invariant :
  forall (S : Type) (P : S -> Prop) (body : Z -> S -> outcome S),
    (forall i s s', P s -> body i s = Returns s' -> P s') ->
    forall n i s s', P s -> forM n i body s = Returns s' -> P s'.
Proof.
  intros S P body Hbody n. induction n as [|n IH]; intros i s s' Hs H;
    cbn [forM] in H.
  - now injection H as <-.
  - destruct (body i s) as [s1|p] eqn:Hb; cbn [bind] in H; [|discriminate].
    eapply IH; [|exact H]. eapply Hbody; eassumption.
Qed.

Lemma forM_withoutChannel :
  forall (S C : Type) (Q : C -> Prop) (body : S -> outcome S)
         (body' : Z -> S * C -> outcome (S * C)),
    (forall i sc, Q (snd sc) -> withoutChannel (body' i sc) = body (fst sc)) ->
    (forall i sc sc', Q (snd sc) -> body' i sc = Returns sc' -> Q (snd sc')) ->
    forall n i sc,
      Q (snd sc) ->
      withoutChannel (forM n i body' sc) = repeatM n body (fst sc).
Proof.
  intros S C Q body body' Hbody Hkeep n. induction n as [|n IH]; intros i sc Hsc;
    cbn [forM repeatM].
  - reflexivity.
  - rewrite <- (Hbody i sc Hsc).
    destruct (body' i sc) as [sc1|p] eqn:Hb; unfold withoutChannel at 2;
      cbn [bind].
    + apply IH. exact (Hkeep _ _ _ Hsc Hb).
    + reflexivity.
Qed.

End ChannelFacts.

Section ProgressFacts.

Context {F : Type} {ops : Float64Ops F}.
Variable truncate : F -> Z.
Variable t : numType.
Variable config : OptimizationConfig F.
Variable benchmarkFunc : BenchmarkFunc F t.
Variable hypers : list (ParameterRange F t).
Variable rcv : Receiver.

Lemma sendProgress_label :
  forall chan (st : driver F t) phase iteration total params execTime,
    exists u,
      label u = (phase, iteration, total) /\
      CurrentBestTime u = bestTime st /\
      LastExecutionTime u = execTime /\
      sendProgress truncate rcv chan st phase iteration total params execTime =
      match chan with
      | None => Returns None
      | Some ch => ch' <- trySend rcv ch u ;; Returns (Some ch')
      end.
Proof.
  intros chan st phase iteration total params execTime.
  exists {| Phase := phase;
            CurrentIteration := iteration;
            TotalIterations := total;
            CurrentParams := map (intOf truncate t) params;
            CurrentBestParams := map (intOf truncate t) (bestParams st);
            CurrentBestTime := bestTime st;
            LastExecutionTime := execTime |}.
  unfold label.
  cbn [Phase CurrentIteration TotalIterations CurrentBestTime LastExecutionTime].
  split; [reflexivity|]. split; [reflexivity|]. split; [reflexivity|].
  destruct chan; reflexivity.
Qed.

(** A send that returns: the update went to [trySend], or the channel
    was nil. *)
Lemma sendProgress_inv :
  forall chan (st : driver F t) phase iteration total params execTime chan',
    sendProgress truncate rcv chan st phase iteration total params execTime
    = Returns chan' ->
    exists u,
      label u = (phase, iteration, total) /\
      CurrentBestTime u = bestTime st /\
      LastExecutionTime u = execTime /\
      match chan with
      | None => chan' = None
      | Some ch => exists ch', trySend rcv ch u = Returns ch' /\ chan' = Some ch'
      end.
Proof.
  intros chan st phase iteration total params execTime chan' H.
  destruct (sendProgress_label chan st phase iteration total params execTime)
    as (u & Hu & Hb & He & Hs).
  rewrite Hs in H. exists u. repeat apply conj; try assumption.
  destruct chan as [ch|].
  - destruct (trySend rcv ch u) as [ch'|p]; cbn [bind] in H; [|discriminate].
    injection H as <-. now exists ch'.
  - now injection H as <-.
Qed.

(** A send returns on a nil channel and on a channel that is not closed. *)
Lemma sendProgress_returns :
  forall chan (st : driver F t) phase iteration total params execTime,
    chan = None \/ (forall k, closes rcv k = false) ->
    exists chan',
      sendProgress truncate rcv chan st phase iteration total params execTime
      = Returns chan' /\
      (chan = None -> chan' = None).
Proof.
  intros chan st phase iteration total params execTime Hopen.
  destruct (sendProgress_label chan st phase iteration total params execTime)
    as (u & _ & _ & _ & ->).
  destruct chan as [ch|].
  - destruct Hopen as [Hnil|Hopen]; [discriminate|].
    destruct (trySend_open rcv ch u (Hopen _)) as (ch' & ->). cbn [bind].
    eexists. split; [reflexivity|discriminate].
  - eexists. split; reflexivity.
Qed.

(** What an iteration of phase 1 is made of, with its update, when it
    returns. *)
Lemma initialSampleProgress_inv :
  forall i sc sc',
    initialSampleProgress truncate config benchmarkFunc hypers rcv i sc = Returns sc' ->
    exists st0 rng' params execTime,
      bestTime st0 = bestTime (fst sc) /\
      fst sc' = record st0 rng' params execTime /\
      sendProgress truncate rcv (snd sc) (fst sc') "InitialSampling"
        (i + 1) (InitialSamples config) params execTime = Returns (snd sc').
Proof.
  intros i sc sc' H. unfold initialSampleProgress in H.
  destruct (safeRandomParams hypers (rng (fst sc))) as [[params rng']|p];
    cbn [bind] in H; [|discriminate].
  destruct (sendProgress _ _ _ _ _ _ _ _ _) as [chan'|p] eqn:Hs;
    cbn [bind] in H; [|discriminate].
  injection H as <-. cbn [fst snd].
  exists (fst sc), rng', params, (measure benchmarkFunc (fst sc) params).
  repeat apply conj; try reflexivity. exact Hs.
Qed.

(** The same for phase 2. *)
Lemma iterationProgress_inv :
  forall i sc sc',
    iterationProgress truncate config benchmarkFunc hypers rcv i sc = Returns sc' ->
    exists st0 rng' params execTime,
      bestTime st0 = bestTime (fst sc) /\
      fst sc' = record st0 rng' params execTime /\
      sendProgress truncate rcv (snd sc) (fst sc') "Optimization"
        (i + 1) (Iterations config) params execTime = Returns (snd sc').
Proof.
  intros i sc sc' H. unfold iterationProgress in H.
  destruct (selectCandidate config hypers (fst sc)) as [s|p];
    cbn [bind] in H; [|discriminate].
  destruct (sendProgress _ _ _ _ _ _ _ _ _) as [chan'|p] eqn:Hs;
    cbn [bind] in H; [|discriminate].
  injection H as <-. cbn [fst snd].
  exists (afterSearch (fst sc) s), (s_rng s), (nextParams s),
    (measure benchmarkFunc (afterSearch (fst sc) s) (nextParams s)).
  repeat apply conj; try reflexivity. exact Hs.
Qed.

(** The updates of one phase: the channel lets some of them through, in
    order, and all of them when its buffer has room. *)
Lemma forM_labels :
  forall (phase : string) (total : Z)
         (body : Z -> driver F t * option (Chan (ProgressUpdate F)) ->
                 outcome (driver F t * option (Chan (ProgressUpdate F)))),
    (forall i sc sc' ch,
        body i sc = Returns sc' ->
        snd sc = Some ch ->
        exists u ch',
          label u = (phase, (i + 1)%Z, total) /\
          trySend rcv ch u = Returns ch' /\
          snd sc' = Some ch') ->
    forall n k sc sc' ch,
      forM n (Z.of_nat k) body sc = Returns sc' ->
      snd sc = Some ch ->
      exists ch' l,
        snd sc' = Some ch' /\
        capacity ch' = capacity ch /\
        attempts ch' = (attempts ch + n)%nat /\
        (length (buffer ch') <= length (buffer ch) + n)%nat /\
        ((length (buffer ch) <= capacity ch)%nat ->
         (length (buffer ch') <= capacity ch)%nat) /\
        map label (passed ch') = map label (passed ch) ++ l /\
        Subsequence l (map (fun j => (phase, (Z.of_nat j + 1)%Z, total)) (seq k n)) /\
        ((length (buffer ch) + n <= capacity ch)%nat ->
         l = map (fun j => (phase, (Z.of_nat j + 1)%Z, total)) (seq k n)).
Proof.
  intros phase total body Hbody n.
  induction n as [|n IH]; intros k sc sc' ch H Hch; cbn [forM] in H.
  - injection H as <-. exists ch, []. cbn [seq map].
    rewrite app_nil_r, !Nat.add_0_r.
    repeat apply conj; try lia; try assumption; try reflexivity; auto.
    apply Subsequence_nil.
  - destruct (body (Z.of_nat k) sc) as [sc1|p] eqn:Hb; cbn [bind] in H;
      [|discriminate].
    destruct (Hbody _ _ _ _ Hb Hch) as (u & ch1 & Hu & Hsend & Hsent).
    replace (Z.of_nat k + 1)%Z with (Z.of_nat (S k)) in H by lia.
    destruct (IH (S k) sc1 sc' _ H Hsent)
      as (ch' & l & Hsc' & Hcap & Hatt & Hbuf & Hfit & Hpass & Hsub & Hfull).
    destruct (trySend_fields rcv ch u Hsend)
      as (Hcap1 & Hatt1 & Hbuf1 & Hfit1 & Hpass1).
    cbn [seq map]. rewrite <- Hu.
    destruct Hpass1 as [Hkept|[Hdropped Hnoroom]].
    + exists ch', (label u :: l). rewrite Hpass, Hkept, map_app. cbn [map].
      rewrite <- app_assoc. cbn [app].
      repeat apply conj; try lia; try assumption; try reflexivity.
      * now apply Subsequence_keep.
      * intros Hle. f_equal. apply Hfull. lia.
    + exists ch', l. rewrite Hpass, Hdropped.
      repeat apply conj; try lia; try assumption; try reflexivity.
      now apply Subsequence_skip.
Qed.

Lemma initialSampleProgress_withoutChannel :
  forall i sc,
    snd sc = None \/ (forall k, closes rcv k = false) ->
    withoutChannel (initialSampleProgress truncate config benchmarkFunc hypers rcv i sc)
    = initialSample benchmarkFunc hypers (fst sc).
Proof.
  intros i sc Hopen. unfold withoutChannel, initialSampleProgress, initialSample.
  destruct (safeRandomParams hypers (rng (fst sc))) as [[params rng']|p];
    cbn [bind]; [|reflexivity].
  match goal with
  | |- context [sendProgress ?a ?b ?c ?d ?e ?f ?g ?h ?i] =>
      destruct (@sendProgress_returns c d e f g h i Hopen) as (chan' & -> & _)
  end.
  reflexivity.
Qed.

Lemma iterationProgress_withoutChannel :
  forall i sc,
    snd sc = None \/ (forall k, closes rcv k = false) ->
    withoutChannel (iterationProgress truncate config benchmarkFunc hypers rcv i sc)
    = iteration config benchmarkFunc hypers (fst sc).
Proof.
  intros i sc Hopen. unfold withoutChannel, iterationProgress, iteration.
  destruct (selectCandidate config hypers (fst sc)) as [s|p];
    cbn [bind]; [|reflexivity].
  match goal with
  | |- context [sendProgress ?a ?b ?c ?d ?e ?f ?g ?h ?i] =>
      destruct (@sendProgress_returns c d e f g h i Hopen) as (chan' & -> & _)
  end.
  reflexivity.
Qed.

(** A nil channel stays nil; a receiver that never closes never does. *)
Lemma progress_keeps_open :
  forall (phase : string) (iteration total : Z)
         (sc sc' : driver F t * option (Chan (ProgressUpdate F))),
    (exists st0 rng' params execTime,
        bestTime st0 = bestTime (fst sc) /\
        fst sc' = record st0 rng' params execTime /\
        sendProgress truncate rcv (snd sc) (fst sc') phase iteration total params
          execTime = Returns (snd sc')) ->
    snd sc = None \/ (forall k, closes rcv k = false) ->
    snd sc' = None \/ (forall k, closes rcv k = false).
Proof.
  intros phase iteration total sc sc' (st0 & rng' & params & execTime & _ & _ & Hs)
         [Hnil|Hopen]; [|now right].
  left. apply sendProgress_inv in Hs. destruct Hs as (u & _ & _ & _ & Hs).
  now rewrite Hnil in Hs.
Qed.

Lemma runProgress_withoutChannel :
  forall seed chan,
    chan = None \/ (forall k, closes rcv k = false) ->
    withoutChannel (runProgress truncate config benchmarkFunc hypers rcv seed chan)
    = run config benchmarkFunc hypers seed.
Proof.
  intros seed chan Hopen. unfold runProgress, run.
  pose (Q := fun c : option (Chan (ProgressUpdate F)) =>
               c = None \/ (forall k, closes rcv k = false)).
  assert (Hkeep1 : forall i sc sc',
             Q (snd sc) ->
             initialSampleProgress truncate config benchmarkFunc hypers rcv i sc
             = Returns sc' -> Q (snd sc')).
  { intros i sc sc' Hsc Hb. apply initialSampleProgress_inv in Hb.
    exact (@progress_keeps_open _ _ _ _ _ Hb Hsc). }
  assert (Hkeep2 : forall i sc sc',
             Q (snd sc) ->
             iterationProgress truncate config benchmarkFunc hypers rcv i sc
             = Returns sc' -> Q (snd sc')).
  { intros i sc sc' Hsc Hb. apply iterationProgress_inv in Hb.
    exact (@progress_keeps_open _ _ _ _ _ Hb Hsc). }
  pose proof (@forM_withoutChannel _ _ Q _ _ initialSampleProgress_withoutChannel
                Hkeep1 (loopCount (InitialSamples config)) 0
                (start config hypers seed, chan) Hopen) as H1.
  cbn [fst] in H1. rewrite <- H1. clear H1.
  destruct (forM _ 0%Z _ (start config hypers seed, chan)) as [sc|p] eqn:Hphase1.
  - unfold withoutChannel at 2. cbn [bind].
    assert (Hsc : Q (snd sc)).
    { exact (@forM_invariant _ (fun s => Q (snd s)) _ Hkeep1 _ _
               (start config hypers seed, chan) sc Hopen Hphase1). }
    rewrite <- (@forM_withoutChannel _ _ Q _ _ iterationProgress_withoutChannel
                  Hkeep2 (loopCount (Iterations config)) 0 sc Hsc).
    reflexivity.
  - reflexivity.
Qed.

Lemma runProgress_labels :
  forall seed ch st chan',
    runProgress truncate config benchmarkFunc hypers rcv seed (Some ch)
    = Returns (st, chan') ->
    let expected :=
      labels "InitialSampling" (InitialSamples config)
             (loopCount (InitialSamples config)) ++
      labels "Optimization" (Iterations config) (loopCount (Iterations config)) in
    exists ch' l,
      chan' = Some ch' /\
      capacity ch' = capacity ch /\
      attempts ch' =
        (attempts ch + loopCount (InitialSamples config)
         + loopCount (Iterations config))%nat /\
      ((length (buffer ch) <= capacity ch)%nat ->
       (length (buffer ch') <= capacity ch)%nat) /\
      map label (passed ch') = map label (passed ch) ++ l /\
      Subsequence l expected /\
      ((length (buffer ch) + loopCount (InitialSamples config)
        + loopCount (Iterations config) <= capacity ch)%nat ->
       l = expected).
Proof.
  intros seed ch st chan' H expected. subst expected. unfold runProgress in H.
  destruct (forM _ 0%Z _ (start config hypers seed, Some ch)) as [sc1|p] eqn:H1;
    cbn [bind] in H; [|discriminate].
  destruct (@forM_labels "InitialSampling" (InitialSamples config)
              (initialSampleProgress truncate config benchmarkFunc hypers rcv))
    with (n := loopCount (InitialSamples config)) (k := 0%nat)
         (sc := (start config hypers seed, Some ch)) (sc' := sc1) (ch := ch)
    as (ch1 & l1 & Hsc1 & Hcap1 & Hatt1 & Hbuf1 & Hfit1 & Hpass1 & Hsub1 & Hfull1);
    [|exact H1|reflexivity|].
  { intros i sc sc' c Hb Hc. apply initialSampleProgress_inv in Hb.
    destruct Hb as (st0 & rng' & params & execTime & _ & _ & Hsnd).
    apply sendProgress_inv in Hsnd. destruct Hsnd as (u & Hu & _ & _ & Hs).
    rewrite Hc in Hs. destruct Hs as (c' & Hsend & Hsc').
    now exists u, c'. }
  destruct (@forM_labels "Optimization" (Iterations config)
              (iterationProgress truncate config benchmarkFunc hypers rcv))
    with (n := loopCount (Iterations config)) (k := 0%nat)
         (sc := sc1) (sc' := (st, chan')) (ch := ch1)
    as (ch2 & l2 & Hsc2 & Hcap2 & Hatt2 & Hbuf2 & Hfit2 & Hpass2 & Hsub2 & Hfull2);
    [|exact H|exact Hsc1|].
  { intros i sc sc' c Hb Hc. apply iterationProgress_inv in Hb.
    destruct Hb as (st0 & rng' & params & execTime & _ & _ & Hsnd).
    apply sendProgress_inv in Hsnd. destruct Hsnd as (u & Hu & _ & _ & Hs).
    rewrite Hc in Hs. destruct Hs as (c' & Hsend & Hsc').
    now exists u, c'. }
  cbn [snd] in Hsc2. exists ch2, (l1 ++ l2). unfold labels.
  rewrite Hpass2, Hpass1, <- app_assoc.
  repeat apply conj; try lia; try assumption; try reflexivity.
  - now apply Subsequence_app.
  - intros Hle. f_equal; [apply Hfull1|apply Hfull2]; lia.
Qed.

(** Where the search returns, so does the search with its updates on a
    channel that is never closed, and the channel is still there. *)
Lemma runProgress_returns :
  forall seed ch st,
    (forall k, closes rcv k = false) ->
    run config benchmarkFunc hypers seed = Returns st ->
    exists ch',
      runProgress truncate config benchmarkFunc hypers rcv seed (Some ch)
      = Returns (st, Some ch').
Proof.
  intros seed ch st Hopen H.
  rewrite <- (runProgress_withoutChannel seed (or_intror Hopen : Some ch = None \/ _))
    in H.
  destruct (runProgress truncate config benchmarkFunc hypers rcv seed (Some ch))
    as [[st' chan']|p] eqn:Hrun; cbn in H; [|discriminate].
  injection H as <-.
  destruct (runProgress_labels _ _ Hrun) as (ch' & l & -> & _).
  now exists ch'.
Qed.

(** Progress reporting never changes the search: on a nil channel, and on
    any channel that is not closed while the call runs (unbuffered,
    buffered, full; whatever its receiver does), the call with its updates
    ends as the search alone does, in the same state or with the same
    panic. *)
Theorem progress_never_changes_search :
  forall seed chan,
    chan = None \/ (forall k, closes rcv k = false) ->
    withoutChannel (runProgress truncate config benchmarkFunc hypers rcv seed chan)
    = run config benchmarkFunc hypers seed.
Proof. exact runProgress_withoutChannel. Qed.

(** On a channel that is already closed, the first update panics with
    the runtime's [send on closed channel], although the search alone
    would have returned. *)
Theorem progress_closed_channel :
  forall seed ch st,
    closes rcv (attempts ch) = true ->
    run config benchmarkFunc hypers seed = Returns st ->
    (0 < loopCount (InitialSamples config) + loopCount (Iterations config))%nat ->
    runProgress truncate config benchmarkFunc hypers rcv seed (Some ch)
    = Panics (ExplicitPanic "send on closed channel").
Proof.
  intros seed ch st Hclosed Hrun Hsome. unfold runProgress. unfold run in Hrun.
  destruct (loopCount (InitialSamples config)) as [|n1].
  - cbn [forM repeatM bind] in *.
    destruct (loopCount (Iterations config)) as [|n2]; [lia|].
    cbn [forM repeatM] in *. unfold iterationProgress at 1. unfold iteration in Hrun.
    cbn [fst snd].
    destruct (selectCandidate config hypers (start config hypers seed)) as [s|p];
      cbn [bind] in *; [|discriminate].
    match goal with
    | |- context [sendProgress ?a ?b ?c ?d ?e ?f ?g ?h ?i] =>
        destruct (@sendProgress_label c d e f g h i) as (u & _ & _ & _ & ->)
    end.
    now rewrite (trySend_closed rcv ch u Hclosed).
  - cbn [forM repeatM] in *. unfold initialSampleProgress at 1.
    unfold initialSample in Hrun. cbn [fst snd].
    destruct (safeRandomParams hypers (rng (start config hypers seed)))
      as [[params rng']|p]; cbn [bind] in *; [|discriminate].
    match goal with
    | |- context [sendProgress ?a ?b ?c ?d ?e ?f ?g ?h ?i] =>
        destruct (@sendProgress_label c d e f g h i) as (u & _ & _ & _ & ->)
    end.
    now rewrite (trySend_closed rcv ch u Hclosed).
Qed.

(** The channel lets the updates through in the order they are sent, each
    at most once: [InitialSampling] numbered from 1, then [Optimization]
    numbered from 1, with the totals of the configuration; one send is
    attempted per evaluation; and when the buffer has room for all of
    them, none is dropped, whatever the receiver does. *)
Theorem progress_updates_in_order :
  forall seed ch st chan',
    runProgress truncate config benchmarkFunc hypers rcv seed (Some ch)
    = Returns (st, chan') ->
    let expected :=
      labels "InitialSampling" (InitialSamples config)
             (loopCount (InitialSamples config)) ++
      labels "Optimization" (Iterations config) (loopCount (Iterations config)) in
    exists ch' l,
      chan' = Some ch' /\
      capacity ch' = capacity ch /\
      attempts ch' =
        (attempts ch + loopCount (InitialSamples config)
         + loopCount (Iterations config))%nat /\
      ((length (buffer ch) <= capacity ch)%nat ->
       (length (buffer ch') <= capacity ch)%nat) /\
      map label (passed ch') = map label (passed ch) ++ l /\
      Subsequence l expected /\
      ((length (buffer ch) + loopCount (InitialSamples config)
        + loopCount (Iterations config) <= capacity ch)%nat ->
       l = expected).
Proof. exact runProgress_labels. Qed.

End ProgressFacts.

Section ProgressExact.

Local Open Scope R_scope.

Variable truncate : R -> Z.
Variable t : numType.
Variable config : OptimizationConfig R.
Variable benchmarkFunc : BenchmarkFunc R t.
Variable hypers : list (ParameterRange R t).
Variable rcv : Receiver.

Lemma StronglySorted_snoc :
  forall (A : Type) (rel : A -> A -> Prop) (l : list A) (x : A),
    StronglySorted rel l -> Forall (fun y => rel y x) l ->
    StronglySorted rel (l ++ [x]).
Proof.
  intros A rel l x Hs Hall. induction Hs as [|a l Hs IH Ha]; cbn [app].
  - constructor; constructor.
  - inversion Hall as [|a' l' Hax Hl]; subst. constructor.
    + now apply IH.
    + apply Forall_app. split; [exact Ha|]. now constructor.
Qed.

Lemma record_bestTime_exact :
  forall (st : driver R t) rng' params executionTime,
    bestTime (record st rng' params executionTime) <= executionTime /\
    bestTime (record st rng' params executionTime) <= bestTime st.
Proof.
  intros st rng' params executionTime.
  destruct (record_fields st rng' params executionTime)
    as (_ & _ & _ & _ & Hb & _).
  rewrite Hb. cbn [f_lt Exact.ops].
  destruct (Exact.ltb executionTime (bestTime st)) eqn:Hlt.
  - apply ltb_lt in Hlt. lra.
  - apply ltb_ge in Hlt. lra.
Qed.

Lemma progress_step_exact :
  forall (phase : string) (iteration total : Z)
         (sc sc' : driver R t * option (Chan (ProgressUpdate R))),
    (exists st0 rng' params execTime,
        bestTime st0 = bestTime (fst sc) /\
        fst sc' = record st0 rng' params execTime /\
        sendProgress truncate rcv (snd sc) (fst sc') phase iteration
          total params execTime = Returns (snd sc')) ->
    (forall ch, snd sc = Some ch ->
       Forall (fun u => bestTime (fst sc) <= CurrentBestTime u <= LastExecutionTime u)
              (passed ch) /\
       StronglySorted (fun u v => CurrentBestTime v <= CurrentBestTime u) (passed ch)) ->
    forall ch', snd sc' = Some ch' ->
       Forall (fun u => bestTime (fst sc') <= CurrentBestTime u <= LastExecutionTime u)
              (passed ch') /\
       StronglySorted (fun u v => CurrentBestTime v <= CurrentBestTime u) (passed ch').
Proof.
  intros phase iteration total sc sc' (st0 & rng' & params & execTime & Hb0 & Hfst & Hsnd)
         Hinv ch' Hch'.
  apply sendProgress_inv in Hsnd.
  destruct Hsnd as (u & _ & Hcbt & Hlet & Hsend).
  destruct (snd sc) as [ch|] eqn:Hch; [|congruence].
  destruct Hsend as (ch1 & Hsend & Hsc'). rewrite Hsc' in Hch'.
  injection Hch' as <-.
  destruct (Hinv ch eq_refl) as (Hall & Hsorted).
  destruct (record_bestTime_exact st0 rng' params execTime) as (Hle1 & Hle2).
  rewrite <- Hfst in Hle1, Hle2. rewrite Hb0 in Hle2.
  assert (Hall' : Forall (fun u0 => bestTime (fst sc') <= CurrentBestTime u0
                                    <= LastExecutionTime u0) (passed ch)).
  { eapply Forall_impl; [|exact Hall]. cbn beta. intros u0 Hu0. lra. }
  destruct (trySend_fields rcv ch u Hsend) as (_ & _ & _ & _ & [Hkept|[Hdropped _]]).
  - rewrite Hkept. split.
    + apply Forall_app. split; [exact Hall'|]. constructor; [|constructor].
      rewrite Hcbt, Hlet. lra.
    + apply StronglySorted_snoc; [exact Hsorted|].
      eapply Forall_impl; [|exact Hall]. cbn beta. intros u0 Hu0.
      rewrite Hcbt. lra.
  - rewrite Hdropped. split; assumption.
Qed.

(** In exact arithmetic, on a channel that has carried nothing yet: every
    update that gets through reports a best time that is at most the last
    execution time it reports, the best times reported never increase from
    one update to the next, and none is below the best time of the state
    the call ends in. *)
Theorem progress_best_time :
  forall seed ch st ch',
    passed ch = [] ->
    runProgress truncate config benchmarkFunc hypers rcv seed (Some ch)
    = Returns (st, Some ch') ->
    Forall (fun u => bestTime st <= CurrentBestTime u <= LastExecutionTime u)
           (passed ch') /\
    StronglySorted (fun u v => CurrentBestTime v <= CurrentBestTime u) (passed ch').
Proof.
  intros seed ch st ch' Hnew H. unfold runProgress in H.
  destruct (forM _ 0%Z _ (start config hypers seed, Some ch)) as [sc1|p] eqn:H1;
    cbn [bind] in H; [|discriminate].
  pose (P := fun sc : driver R t * option (Chan (ProgressUpdate R)) =>
               forall c, snd sc = Some c ->
                 Forall (fun u => bestTime (fst sc) <= CurrentBestTime u
                                  <= LastExecutionTime u) (passed c) /\
                 StronglySorted (fun u v => CurrentBestTime v <= CurrentBestTime u)
                                (passed c)).
  assert (H0 : P (start config hypers seed, Some ch)).
  { intros c Hc. cbn [snd] in Hc. injection Hc as <-. rewrite Hnew.
    split; constructor. }
  assert (HP1 : P sc1).
  { eapply (@forM_invariant _ P); [|exact H0|exact H1].
    intros i s s' Hs Hb. apply initialSampleProgress_inv in Hb.
    exact (@progress_step_exact _ _ _ _ _ Hb Hs). }
  assert (HP2 : P (st, Some ch')).
  { eapply (@forM_invariant _ P); [|exact HP1|exact H].
    intros i s s' Hs Hb. apply iterationProgress_inv in Hb.
    exact (@progress_step_exact _ _ _ _ _ Hb Hs). }
  exact (HP2 ch' eq_refl).
Qed.

End ProgressExact.

(** ** What a run draws from its generators *)

Section GeneratorFacts.

Context {F : Type} {ops : Float64Ops F}.
Variable t : numType.
Variable config : OptimizationConfig F.
Variable benchmarkFunc : BenchmarkFunc F t.
Variable hypers : list (ParameterRange F t).

Lemma randomInteger_draws :
  forall bits Min Max (rng : Rand F) v rng',
    randomInteger bits Min Max rng = Returns (v, rng') -> rng' = advance rng.
Proof.
  intros bits Min Max rng v rng' H. unfold randomInteger, Int63n in H.
  destruct (Z.leb _ 0); cbn [bind] in H; [discriminate|].
  now injection H as _ <-.
Qed.

Lemma assignRandom_draws :
  forall (hyper : ParameterRange F t) i params rng params' rng',
    sampled t = true ->
    assignRandom hyper i params rng = Returns (params', rng') ->
    rng' = advance rng.
Proof.
  intros hyper i params rng params' rng' Ht H.
  destruct t as [b|b]; destruct b; try discriminate Ht; cbn [assignRandom] in H;
    try (destruct (randomInteger _ (Min hyper) (Max hyper) rng) as [[v r]|p] eqn:Hr;
         cbn [bind] in H; [|discriminate];
         apply randomInteger_draws in Hr; now injection H as _ <-);
    unfold randomFloat, Float64 in H; now injection H as _ <-.
Qed.

Lemma rangeLoop_draws :
  sampled t = true ->
  forall (l : list (ParameterRange F t)) i params rng params' rng',
    rangeLoop l i params rng = Returns (params', rng') ->
    source rng' = source rng /\ drawn rng' = (length l + drawn rng)%nat.
Proof.
  intros Ht l. induction l as [|hyper rest IH]; intros i params rng params' rng' H;
    cbn [rangeLoop] in H.
  - injection H as _ <-. split; reflexivity.
  - destruct (assignRandom hyper i params rng) as [[p1 r1]|p] eqn:Ha;
      cbn [bind] in H; [|discriminate].
    apply (assignRandom_draws _ _ _ _ Ht) in Ha. subst r1.
    apply IH in H. destruct H as [Hs Hd]. rewrite Hs, Hd.
    cbn [advance source drawn length]. split; [reflexivity|lia].
Qed.

(** One draw per range for the types the type switch has a case for, none
    for the others. *)
Lemma safeRandomParams_draws :
  forall rng params rng',
    safeRandomParams hypers rng = Returns (params, rng') ->
    source rng' = source rng /\
    drawn rng' = ((if sampled t then length hypers else 0) + drawn rng)%nat.
Proof.
  intros rng params rng' H. destruct (sampled t) eqn:Ht.
  - unfold safeRandomParams in H. exact (rangeLoop_draws Ht _ _ _ _ H).
  - rewrite (safeRandomParams_unsampled hypers rng Ht) in H.
    injection H as _ <-. split; reflexivity.
Qed.

Lemma repeatM_sum :
  forall (S : Type) (f : S -> nat) (c : nat) (body : S -> outcome S),
    (forall s s', body s = Returns s' -> f s' = (c + f s)%nat) ->
    forall n s s', repeatM n body s = Returns s' -> f s' = (n * c + f s)%nat.
Proof.
  intros S f c body Hbody n. induction n as [|n IH]; intros s s' H;
    cbn [repeatM] in H.
  - now injection H as <-.
  - destruct (body s) as [s1|p] eqn:Hb; cbn [bind] in H; [|discriminate].
    apply IH in H. apply Hbody in Hb. lia.
Qed.

Lemma candidate_inv :
  forall model (s s' : search F t),
    candidate config hypers model s = Returns s' ->
    exists params rng' mean variance a state,
      safeRandomParams hypers (s_rng s) = Returns (params, rng') /\
      AcquisitionFunc_ config mean variance (s_acqParams s) = Returns (a, state) /\
      s_rng s' = rng' /\
      s_acqParams s' = withState (s_acqParams s) state /\
      nextParams s' = (if f_lt a (bestAcquisition s) then params else nextParams s) /\
      bestAcquisition s' = (if f_lt a (bestAcquisition s) then a else bestAcquisition s).
Proof.
  intros model s s' H. unfold candidate, scoreCandidate in H.
  destruct (safeRandomParams hypers (s_rng s)) as [[params rng']|p];
    cbn [bind] in H; [|discriminate].
  destruct (Predict model (paramsToFloat64s t params)) as [[mean variance]|p];
    cbn [bind] in H; [|discriminate].
  destruct (AcquisitionFunc_ config mean variance (s_acqParams s))
    as [[a state]|p] eqn:Ha; cbn [bind] in H; [|discriminate].
  exists params, rng', mean, variance, a, state.
  destruct (f_lt a (bestAcquisition s)); injection H as <-;
    cbn [s_rng s_acqParams nextParams bestAcquisition]; repeat apply conj;
    reflexivity || assumption.
Qed.

Lemma iteration_draws :
  forall st st',
    iteration config benchmarkFunc hypers st = Returns st' ->
    source (rng st') = source (rng st) /\
    drawn (rng st') =
      (loopCount (NumCandidates config) * (if sampled t then length hypers else 0)
       + drawn (rng st))%nat.
Proof.
  intros st st' H. apply iteration_inv in H. destruct H as (s & Hs & ->).
  match goal with
  | |- context [record ?a ?b ?c ?d] =>
      destruct (record_fields a b c d) as (_ & _ & -> & _)
  end.
  unfold selectCandidate in Hs.
  split.
  - eapply (@repeatM_invariant _
              (fun s0 : search F t => source (s_rng s0) = source (rng st)));
      [| |exact Hs]; [|reflexivity].
    intros s0 s1 Hs0 Hc. apply candidate_inv in Hc.
    destruct Hc as (params & rng' & mean & variance & a & state & Hsafe & _ & -> & _).
    apply safeRandomParams_draws in Hsafe. destruct Hsafe as [-> _]. exact Hs0.
  - assert (Hstep : forall s0 s1 : search F t,
               candidate config hypers (gp st) s0 = Returns s1 ->
               drawn (s_rng s1) =
               ((if sampled t then length hypers else 0) + drawn (s_rng s0))%nat).
    { intros s0 s1 Hc. apply candidate_inv in Hc.
      destruct Hc as (params & rng' & mean & variance & a & state & Hsafe & _ & -> & _).
      apply safeRandomParams_draws in Hsafe. now destruct Hsafe as [_ ->]. }
    exact (@repeatM_sum _ (fun s0 : search F t => drawn (s_rng s0)) _ _ Hstep
             _ _ _ Hs).
Qed.

Lemma initialSample_draws :
  forall st st',
    initialSample benchmarkFunc hypers st = Returns st' ->
    source (rng st') = source (rng st) /\
    drawn (rng st') = ((if sampled t then length hypers else 0) + drawn (rng st))%nat.
Proof.
  intros st st' H. apply initialSample_inv in H.
  destruct H as (params & rng' & Hsafe & ->).
  match goal with
  | |- context [record ?a ?b ?c ?d] =>
      destruct (record_fields a b c d) as (_ & _ & -> & _)
  end.
  exact (safeRandomParams_draws _ Hsafe).
Qed.

(** A run that returns has drawn from the generator it was seeded with one
    value per range for every point it made (one point per initial sample,
    [NumCandidates] points per iteration), when [T] is one of the five
    types the type switch names, and nothing otherwise. *)
Theorem run_draws :
  forall seed st,
    run config benchmarkFunc hypers seed = Returns st ->
    source (rng st) = source seed /\
    drawn (rng st) =
      (drawn seed
       + (if sampled t then length hypers else 0)
         * (loopCount (InitialSamples config)
            + loopCount (Iterations config) * loopCount (NumCandidates config)))%nat.
Proof.
  intros seed st H. unfold run in H.
  destruct (repeatM _ (initialSample benchmarkFunc hypers) _) as [st1|p] eqn:H1;
    cbn [bind] in H; [|discriminate].
  assert (Hs1 : source (rng st1) = source seed).
  { eapply (@repeatM_invariant _ (fun s : driver F t => source (rng s) = source seed));
      [| |exact H1]; [|reflexivity].
    intros s s' Hs Hb. apply initialSample_draws in Hb. destruct Hb as [-> _].
    exact Hs. }
  assert (Hs2 : source (rng st) = source seed).
  { eapply (@repeatM_invariant _ (fun s : driver F t => source (rng s) = source seed));
      [| |exact H]; [|exact Hs1].
    intros s s' Hs Hb. apply iteration_draws in Hb. destruct Hb as [-> _].
    exact Hs. }
  split; [exact Hs2|].
  pose proof (@repeatM_sum _ (fun s : driver F t => drawn (rng s)) _ _
                (fun s s' Hb => proj2 (initialSample_draws _ Hb)) _ _ _ H1) as Hd1.
  pose proof (@repeatM_sum _ (fun s : driver F t => drawn (rng s)) _ _
                (fun s s' Hb => proj2 (iteration_draws _ Hb)) _ _ _ H) as Hd2.
  cbn beta in Hd1, Hd2. cbn [start rng] in Hd1. nia.
Qed.

End GeneratorFacts.

Section RandomStateFacts.

Context {F : Type} {ops : Float64Ops F}.
Variable t : numType.
Variable config : OptimizationConfig F.
Variable benchmarkFunc : BenchmarkFunc F t.
Variable hypers : list (ParameterRange F t).

Lemma repeatM_iter :
  forall (S A : Type) (f : S -> A) (g : A -> A) (body : S -> outcome S),
    (forall s s', body s = Returns s' -> f s' = g (f s)) ->
    forall n s s', repeatM n body s = Returns s' -> f s' = Nat.iter n g (f s).
Proof.
  intros S A f g body Hbody n. induction n as [|n IH]; intros s s' H;
    cbn [repeatM] in H.
  - now injection H as <-.
  - destruct (body s) as [s1|p] eqn:Hb; cbn [bind] in H; [|discriminate].
    apply IH in H. apply Hbody in Hb. rewrite H, Hb. symmetry.
    apply Nat.iter_succ_r.
Qed.

Lemma iter_advance :
  forall (n : nat) (r : Rand F),
    Nat.iter n (option_map (@advance F)) (Some r)
    = Some {| source := source r; drawn := n + drawn r |}.
Proof.
  intros n r. induction n as [|n IH].
  - destruct r; reflexivity.
  - rewrite Nat.iter_succ, IH. reflexivity.
Qed.

Lemma iter_iter :
  forall (A : Type) (g : A -> A) (m n : nat) (x : A),
    Nat.iter m (Nat.iter n g) x = Nat.iter (m * n) g x.
Proof.
  intros A g m n x. induction m as [|m IH].
  - reflexivity.
  - rewrite Nat.iter_succ, IH. cbn [Nat.mul]. now rewrite Nat.iter_add.
Qed.

Lemma ThompsonSampling_state :
  forall mean variance (params : AcquisitionParams F) a state,
    ThompsonSampling mean variance params = Returns (a, state) ->
    state = option_map (@advance F) (RandomState params).
Proof.
  intros mean variance params a state H. unfold ThompsonSampling, NormFloat64 in H.
  destruct (RandomState params) as [r|]; cbn [bind] in H; [|discriminate].
  now injection H as _ <-.
Qed.

(** With [ThompsonSampling], a run that returns has drawn from the
    generator [config.AcqParams.RandomState] points to once per candidate:
    [Iterations * NumCandidates] values, none of them in phase 1. *)
Theorem run_draws_RandomState :
  forall seed st r,
    AcquisitionFunc_ config = ThompsonSampling ->
    RandomState (AcqParams config) = Some r ->
    run config benchmarkFunc hypers seed = Returns st ->
    RandomState (acqParams st) =
    Some {| source := source r;
            drawn := loopCount (Iterations config) * loopCount (NumCandidates config)
                     + drawn r |}.
Proof.
  intros seed st r Hacq Hr H. unfold run in H.
  destruct (repeatM _ (initialSample benchmarkFunc hypers) _) as [st1|p] eqn:H1;
    cbn [bind] in H; [|discriminate].
  assert (Hinit : forall s s' : driver F t,
             initialSample benchmarkFunc hypers s = Returns s' ->
             RandomState (acqParams s') = RandomState (acqParams s)).
  { intros s s' Hb. apply initialSample_inv in Hb.
    destruct Hb as (params & rng' & _ & ->).
    match goal with
    | |- context [record ?a ?b ?c ?d] =>
        destruct (record_fields a b c d) as (_ & _ & _ & -> & _)
    end.
    reflexivity. }
  assert (Hcand : forall model (s s' : search F t),
             candidate config hypers model s = Returns s' ->
             RandomState (s_acqParams s') =
             option_map (@advance F) (RandomState (s_acqParams s))).
  { intros model s s' Hc. apply candidate_inv in Hc.
    destruct Hc as (params & rng' & mean & variance & a & state & _ & Ha & _ & -> & _).
    rewrite Hacq in Ha. apply ThompsonSampling_state in Ha. exact Ha. }
  assert (Hiter : forall s s' : driver F t,
             iteration config benchmarkFunc hypers s = Returns s' ->
             RandomState (acqParams s') =
             Nat.iter (loopCount (NumCandidates config)) (option_map (@advance F))
                      (RandomState (acqParams s))).
  { intros s s' Hb. apply iteration_inv in Hb. destruct Hb as (s0 & Hs0 & ->).
    match goal with
    | |- context [record ?a ?b ?c ?d] =>
        destruct (record_fields a b c d) as (_ & _ & _ & -> & _)
    end.
    cbn [afterSearch acqParams]. unfold selectCandidate in Hs0.
    exact (@repeatM_iter _ _ (fun s1 : search F t => RandomState (s_acqParams s1))
             _ _ (Hcand (gp s)) _ _ _ Hs0). }
  pose proof (@repeatM_iter _ _ (fun s : driver F t => RandomState (acqParams s))
                (fun x => x) _ Hinit _ _ _ H1) as E1.
  pose proof (@repeatM_iter _ _ (fun s : driver F t => RandomState (acqParams s))
                _ _ Hiter _ _ _ H) as E2.
  cbn beta in E1, E2. rewrite E2, E1, iter_iter.
  assert (Hid : forall n (x : option (Rand F)), Nat.iter n (fun x => x) x = x)
    by (intros n x; induction n; [reflexivity|now rewrite Nat.iter_succ]).
  rewrite Hid. cbn [start acqParams]. rewrite Hr. apply iter_advance.
Qed.

End RandomStateFacts.

(** ** The best point is one that was evaluated *)

Section BestPoint.

Context {F : Type} {ops : Float64Ops F}.
Variable t : numType.
Variable config : OptimizationConfig F.
Variable benchmarkFunc : BenchmarkFunc F t.
Variable hypers : list (ParameterRange F t).




End BestPoint.

(** ** The properties above on concrete inputs *)

Lemma Predict_dimension_mismatch_witness :
  Predict Inputs.gpTwice [0%R; 0%R] =
    Panics (ExplicitPanic "input vectors must have the same length") /\
  (forall xi, In xi (X Inputs.gpTwice) -> length xi <> 2%nat ->
              RBFKernel Inputs.gpTwice [0%R; 0%R] xi =
              Panics (ExplicitPanic "input vectors must have the same length")).
Proof.
  apply (@Predict_dimension_mismatch R Exact.ops Inputs.gpTwice [0%R; 0%R]).
  apply Exists_cons_hd. cbn [length]. discriminate.
Defined.

Lemma Predict_variance_square_witness :
  exists m v,
    Predict Inputs.gpTwice [0%R] = Returns (m, v) /\
    let total :=
      SurrogateSpec.Rsum
        (map (fun o => SurrogateSpec.kernel (sigma Inputs.gpTwice) [0%R] (fst o))
             Inputs.twice) in
    (v = 1 - total ^ 2 / INR (length Inputs.twice) /\
     v <= 1 /\
     (v < 0 <-> INR (length Inputs.twice) < total ^ 2))%R.
Proof.
  apply (@Predict_variance_square Inputs.gpTwice Inputs.twice [0%R]).
  - split; reflexivity.
  - discriminate.
  - repeat constructor.
Defined.



Lemma improvement_at_boundary_witness :
  @ExpectedImprovement R Exact.ops (exactMath Inputs.clip) 1%R 4%R Inputs.best1
  = Returns ((R_sqrt.sqrt 4 / R_sqrt.sqrt (2 * PI))%R, None) /\
  @ProbabilityOfImprovement R Exact.ops (exactMath Inputs.clip) 1%R 4%R Inputs.best1
  = Returns (((1 + Inputs.clip 0) / 2)%R, None).
Proof.
  apply (@improvement_at_boundary Inputs.clip 1%R 4%R Inputs.best1).
  - lra.
  - cbn [Inputs.best1 BestSoFar Xi]. lra.
Defined.




Lemma failure_costs_more_witness :
  (measureExecutionTime Inputs.flaky 1 [7%Z]
   < measureExecutionTime Inputs.flaky 0 [7%Z])%R /\
  (forall st1 st2 : driver R (Predeclared Tint),
      length (calls st1) = 0%nat -> length (calls st2) = 1%nat ->
      (measure Inputs.flaky st2 [7%Z] < measure Inputs.flaky st1 [7%Z])%R).
Proof.
  apply (@failure_costs_more Inputs.flaky 0%nat 1%nat [7%Z] [7%Z]).
  - reflexivity.
  - reflexivity.
  - cbn [Inputs.flaky nanoseconds]. lia.
  - cbn [Inputs.flaky nanoseconds]. lia.
Defined.

Lemma empty_range_panics_witness :
  (forall rng,
      safeRandomParams [Inputs.single; Inputs.backwards] rng =
      Panics (ExplicitPanic "invalid argument to Int63n")) /\
  (forall config benchmarkFunc seed,
      (0 < InitialSamples config)%Z ->
      OptimizeHyperparameters config benchmarkFunc [Inputs.single; Inputs.backwards] seed =
      Panics (ExplicitPanic "invalid argument to Int63n")).
Proof.
  apply (@empty_range_panics float Binary64.ops (Predeclared Tint) 64%Z
           [Inputs.single; Inputs.backwards] eq_refl).
  apply Exists_cons_tl, Exists_cons_hd.
  unfold emptyRange. cbn [asInteger integerOf Inputs.backwards Min Max]. lia.
Defined.

Lemma progress_updates_in_order_witness :
  exists st ch',
    runProgress (@Inputs.toZero float) Inputs.flatConfig Inputs.faster [Inputs.single]
      Inputs.eager Inputs.zeros (Some (newChan (ProgressUpdate float) 4))
    = Returns (st, Some ch') /\
    attempts ch' = 4%nat /\
    map label (passed ch') =
      [("InitialSampling"%string, 1%Z, 2%Z); ("InitialSampling"%string, 2%Z, 2%Z);
       ("Optimization"%string, 1%Z, 2%Z); ("Optimization"%string, 2%Z, 2%Z)].
Proof.
  destruct (@run_returns float Binary64.ops (Predeclared Tint) Inputs.flatConfig
              Inputs.faster [Inputs.single] eq_refl
              (or_intror (conj flat_scoresBelowMax eq_refl))
              Inputs.zeros) as (st & Hst & _).
  destruct (@runProgress_returns float Binary64.ops (@Inputs.toZero float)
              (Predeclared Tint) Inputs.flatConfig Inputs.faster [Inputs.single]
              Inputs.eager Inputs.zeros (newChan (ProgressUpdate float) 4) st
              (fun _ => eq_refl) Hst)
    as (ch' & Hrun).
  exists st, ch'. split; [exact Hrun|].
  destruct (@progress_updates_in_order float Binary64.ops (@Inputs.toZero float)
              (Predeclared Tint) Inputs.flatConfig Inputs.faster [Inputs.single]
              Inputs.eager Inputs.zeros (newChan (ProgressUpdate float) 4) st
              (Some ch') Hrun)
    as (ch2 & l & Heq & _ & Hatt & _ & Hpass & _ & Hfull).
  injection Heq as <-. split; [exact Hatt|].
  rewrite Hpass, Hfull; [reflexivity|].
  cbn. lia.
Defined.

Lemma progress_never_changes_search_witness :
  withoutChannel
    (runProgress (@Inputs.toZero float) Inputs.flatConfig Inputs.faster [Inputs.single]
       Inputs.eager Inputs.zeros (Some (newChan (ProgressUpdate float) 0)))
  = run Inputs.flatConfig Inputs.faster [Inputs.single] Inputs.zeros.
Proof.
  apply (@progress_never_changes_search float Binary64.ops (@Inputs.toZero float)
           (Predeclared Tint) Inputs.flatConfig Inputs.faster [Inputs.single]
           Inputs.eager Inputs.zeros (Some (newChan (ProgressUpdate float) 0))).
  right. intros k. reflexivity.
Defined.

Lemma progress_closed_channel_witness :
  runProgress (@Inputs.toZero float) Inputs.flatConfig Inputs.faster [Inputs.single]
    Inputs.gone Inputs.zeros (Some (newChan (ProgressUpdate float) 4))
  = Panics (ExplicitPanic "send on closed channel").
Proof.
  destruct (@run_returns float Binary64.ops (Predeclared Tint) Inputs.flatConfig
              Inputs.faster [Inputs.single] eq_refl
              (or_intror (conj flat_scoresBelowMax eq_refl))
              Inputs.zeros) as (st & Hst & _).
  apply (@progress_closed_channel float Binary64.ops (@Inputs.toZero float)
           (Predeclared Tint) Inputs.flatConfig Inputs.faster [Inputs.single]
           Inputs.gone Inputs.zeros (newChan (ProgressUpdate float) 4) st eq_refl Hst).
  cbn. lia.
Defined.

Lemma progress_best_time_witness :
  exists st ch',
    runProgress (@Inputs.toZero R) Inputs.levelConfig Inputs.steady [Inputs.hundred]
      Inputs.eager Inputs.fixed (Some (newChan (ProgressUpdate R) 1))
    = Returns (st, Some ch') /\
    Forall (fun u => (bestTime st <= CurrentBestTime u <= LastExecutionTime u)%R)
           (passed ch') /\
    StronglySorted (fun u v => (CurrentBestTime v <= CurrentBestTime u)%R) (passed ch').
Proof.
  destruct (@run_returns R Exact.ops (Predeclared Tint) Inputs.levelConfig
              Inputs.steady [Inputs.hundred] eq_refl
              (or_intror (conj level_scoresBelowMax eq_refl))
              Inputs.fixed) as (st & Hst & _).
  destruct (@runProgress_returns R Exact.ops (@Inputs.toZero R)
              (Predeclared Tint) Inputs.levelConfig Inputs.steady [Inputs.hundred]
              Inputs.eager Inputs.fixed (newChan (ProgressUpdate R) 1) st
              (fun _ => eq_refl) Hst)
    as (ch' & Hrun).
  exists st, ch'. split; [exact Hrun|].
  exact (@progress_best_time (@Inputs.toZero R) (Predeclared Tint) Inputs.levelConfig
           Inputs.steady [Inputs.hundred] Inputs.eager Inputs.fixed
           (newChan (ProgressUpdate R) 1) st ch' eq_refl Hrun).
Defined.

Lemma run_draws_witness :
  exists st,
    run Inputs.flatConfig Inputs.faster [Inputs.single] Inputs.zeros = Returns st /\
    source (rng st) = source Inputs.zeros /\
    drawn (rng st) = 8%nat.
Proof.
  destruct (@run_returns float Binary64.ops (Predeclared Tint) Inputs.flatConfig
              Inputs.faster [Inputs.single] eq_refl
              (or_intror (conj flat_scoresBelowMax eq_refl))
              Inputs.zeros) as (st & Hst & _).
  exists st. split; [exact Hst|].
  exact (@run_draws float Binary64.ops (Predeclared Tint) Inputs.flatConfig
           Inputs.faster [Inputs.single] Inputs.zeros st Hst).
Defined.

Lemma run_draws_RandomState_witness :
  exists st,
    run Inputs.thompsonConfig Inputs.faster [Inputs.single] Inputs.zeros = Returns st /\
    RandomState (acqParams st) =
    Some {| source := source Inputs.zeros; drawn := 6 |}.
Proof.
  eexists. split; [vm_compute; reflexivity|].
  apply (@run_draws_RandomState float Binary64.ops (Predeclared Tint)
           Inputs.thompsonConfig Inputs.faster [Inputs.single] Inputs.zeros _
           Inputs.zeros eq_refl eq_refl).
  vm_compute. reflexivity.
Defined.

